(** * The ShredStream entry decoder, address matcher and counters of
      [main.go], embedded in Rocq.

    The Go program pulls raw entry payloads from a stream, decodes each one
    into a [SolanaEntry], scans the decoded transactions for watched
    addresses and keeps process-wide counters.  Pure Go functions are
    Rocq functions here; the [bin.Decoder] cursor is threaded explicitly;
    the global counters are a record that every operation takes and
    returns; a Go panic is an explicit outcome. *)

From Stdlib Require Import ZArith List Lia Bool String Ascii.
From Stdlib.Strings Require Import Byte.
From stdpp Require Import base option list gmap strings.

Local Open Scope Z_scope.

(** ** Bytes and fixed-width integers *)

Definition byte_val (b : byte) : Z := Z.of_N (Byte.to_N b).

(** [binary.LittleEndian.Uint64]: the first byte is the least significant. *)
Fixpoint le_uint (bs : list byte) : Z :=
  match bs with
  | [] => 0
  | b :: rest => byte_val b + 256 * le_uint rest
  end.

(** Go's [int64]: conversions and [atomic.AddInt64] wrap around. *)
Definition wrap64 (z : Z) : Z := (z + 2 ^ 63) mod 2 ^ 64 - 2 ^ 63.

Definition add64 (a b : Z) : Z := wrap64 (a + b).

(** ** The byte cursor ([bin.Decoder]) *)

Module bin.

(** Failures of the cursor and of the transaction decoder built on it. *)
Inductive Fault :=
| Truncated
| NoSignatures.

Record Decoder := mkDecoder { data : list byte; pos : nat }.

Definition NewBinDecoder (bs : list byte) : Decoder := mkDecoder bs 0.

Definition Remaining (d : Decoder) : nat := (length (data d) - pos d)%nat.

Definition Position (d : Decoder) : nat := pos d.

Definition advance (n : nat) (d : Decoder) : Decoder :=
  mkDecoder (data d) (pos d + n).

(** A decoding step: it returns the cursor it leaves behind together
    with a fault or a value, as the Go methods mutate the decoder and
    return [(value, err)]. *)
Definition Dec (A : Type) : Type := Decoder -> Decoder * (Fault + A).

Definition ret {A} (a : A) : Dec A := fun d => (d, inr a).

Definition fail {A} (e : Fault) : Dec A := fun d => (d, inl e).

Definition bind {A B} (m : Dec A) (k : A -> Dec B) : Dec B :=
  fun d =>
    match m d with
    | (d', inl e) => (d', inl e)
    | (d', inr a) => k a d'
    end.

(** Modelled from the spec: the cursor primitives of the imported binary
    package, which is not part of this repository.  A read of [n] bytes
    with fewer than [n] bytes left fails and leaves the cursor where it
    was; otherwise it returns the next [n] bytes and advances by [n]. *)
Definition Read (n : nat) : Dec (list byte) :=
  fun d =>
    if (Remaining d <? n)%nat then (d, inl Truncated)
    else (advance n d, inr (take n (drop (pos d) (data d)))).

(** Modelled from the spec: [ReadUint64(bin.LE)], an 8-byte
    little-endian unsigned integer. *)
Definition ReadUint64 : Dec Z :=
  fun d =>
    match Read 8 d with
    | (d', inl e) => (d', inl e)
    | (d', inr bs) => (d', inr (le_uint bs))
    end.

(** Modelled from the spec: a single byte, as a count from 0 to 255. *)
Definition ReadByte : Dec Z :=
  fun d =>
    match Read 1 d with
    | (d', inl e) => (d', inl e)
    | (d', inr bs) => (d', inr (le_uint bs))
    end.

(** Modelled from the spec: the compact length prefix, 7 data bits per
    byte, least significant group first, the high bit set on every byte
    but the last.  Returns the value and the number of bytes used. *)
Fixpoint compact_len (bs : list byte) (shift : Z) (acc : Z) (used : nat)
  : option (Z * nat) :=
  match bs with
  | [] => None
  | b :: rest =>
      let v := byte_val b in
      let acc' := Z.lor acc (Z.shiftl (Z.land v 127) shift) in
      if Z.testbit v 7
      then compact_len rest (shift + 7) acc' (S used)
      else Some (acc', S used)
  end.

Definition ReadCompactLen : Dec Z :=
  fun d =>
    match compact_len (drop (pos d) (data d)) 0 0 0 with
    | None => (d, inl Truncated)
    | Some (n, used) => (advance used d, inr n)
    end.

(** [n] consecutive items read by [rd]; stops at the first fault. *)
Fixpoint read_many {A} (rd : Dec A) (n : nat) : Dec (list A) :=
  match n with
  | O => ret []
  | S k =>
      bind rd (fun x => bind (read_many rd k) (fun xs => ret (x :: xs)))
  end.

End bin.

Notation "'do' x <- m ; k" := (bin.bind m (fun x => k))
  (at level 10, x name, m at level 100, k at level 200).

(** ** Transactions (the types of the imported [solana] package) *)

Module solana.

Definition PublicKey := list byte.
Definition Signature := list byte.
Definition Hash := list byte.

Record MessageHeader := mkHeader {
  NumRequiredSignatures : Z;
  NumReadonlySignedAccounts : Z;
  NumReadonlyUnsignedAccounts : Z
}.

Record CompiledInstruction := mkInstruction {
  ProgramIDIndex : Z;
  Accounts : list Z;
  Data : list byte
}.

Record Message := mkMessage {
  AccountKeys : list PublicKey;
  Header : MessageHeader;
  RecentBlockhash : Hash;
  Instructions : list CompiledInstruction
}.

Record Transaction := mkTransaction {
  Signatures : list Signature;
  TxMessage : Message
}.

(** Modelled from the spec: [Transaction.UnmarshalWithDecoder] of the
    imported package, which is not part of this repository.  In order:
    a compact-length-prefixed sequence of 64-byte signatures (at least
    one), a 3-byte header, a compact-length-prefixed sequence of 32-byte
    account keys, a 32-byte recent blockhash, and a
    compact-length-prefixed sequence of instructions. *)
Definition read_signatures : bin.Dec (list Signature) :=
  do n <- bin.ReadCompactLen;
  if n =? 0 then bin.fail bin.NoSignatures
  else bin.read_many (bin.Read 64) (Z.to_nat n).

Definition read_header : bin.Dec MessageHeader :=
  do a <- bin.ReadByte;
  do b <- bin.ReadByte;
  do c <- bin.ReadByte;
  bin.ret (mkHeader a b c).

Definition read_instruction : bin.Dec CompiledInstruction :=
  do pid <- bin.ReadByte;
  do na <- bin.ReadCompactLen;
  do accts <- bin.Read (Z.to_nat na);
  do nd <- bin.ReadCompactLen;
  do blob <- bin.Read (Z.to_nat nd);
  bin.ret (mkInstruction pid (map byte_val accts) blob).

Definition read_message : bin.Dec Message :=
  do hdr <- read_header;
  do nk <- bin.ReadCompactLen;
  do keys <- bin.read_many (bin.Read 32) (Z.to_nat nk);
  do bh <- bin.Read 32;
  do ni <- bin.ReadCompactLen;
  do instrs <- bin.read_many read_instruction (Z.to_nat ni);
  bin.ret (mkMessage keys hdr bh instrs).

Definition UnmarshalWithDecoder : bin.Dec Transaction :=
  do sigs <- read_signatures;
  do msg <- read_message;
  bin.ret (mkTransaction sigs msg).

End solana.

(** ** Entries *)

Record SolanaEntry := mkEntry {
  NumHashes : Z;
  Hash : solana.Hash;
  Transactions : list solana.Transaction
}.

(** The errors of [processEntry], [parseJitoEntry] and
    [parseStandardEntry], one constructor per [fmt.Errorf] of the source. *)
Inductive EntryError :=
| ReadNumHashesFailed (e : bin.Fault)
| UnreasonableHashCount (numHashes : Z)
| ReadHashFailed (e : bin.Fault)
| ReadTxnCountFailed (e : bin.Fault)
| UnreasonableTxnCount (numTxns : Z)
| InsufficientBytes (numTxns : Z)
| FirstTransactionCorrupt (e : bin.Fault)
| HeaderTooShort
| SkipHeaderFailed (e : bin.Fault)
| TooSmall (len : nat)
| AllParsersFailed (e : EntryError).

(** The decoder of one transaction is the imported package's; the entry
    decoders take it as an argument. *)
Definition TxDecoder := bin.Dec solana.Transaction.

(** The [for i := uint64(0); i < numTxns; i++] loop of
    [parseStandardEntry]: [todo] iterations are left, [i] is the index of
    the next transaction and [acc] the slice built so far. *)
Fixpoint read_transactions (unmarshal : TxDecoder) (todo : nat) (i : Z)
    (d : bin.Decoder) (acc : list solana.Transaction)
  : EntryError + list solana.Transaction :=
  match todo with
  | O => inr acc
  | S todo' =>
      match unmarshal d with
      | (_, inl e) =>
          if i =? 0 then inl (FirstTransactionCorrupt e) else inr acc
      | (d', inr tx) =>
          read_transactions unmarshal todo' (i + 1) d' (acc ++ [tx])
      end
  end.

Definition parseStandardEntry (unmarshal : TxDecoder) (buf : list byte)
  : EntryError + SolanaEntry :=
  let decoder := bin.NewBinDecoder buf in
  match bin.ReadUint64 decoder with
  | (_, inl e) => inl (ReadNumHashesFailed e)
  | (decoder, inr numHashes) =>
      if 1000000 <? numHashes then inl (UnreasonableHashCount numHashes)
      else
        match bin.Read 32 decoder with
        | (_, inl e) => inl (ReadHashFailed e)
        | (decoder, inr hash) =>
            match bin.ReadUint64 decoder with
            | (_, inl e) => inl (ReadTxnCountFailed e)
            | (decoder, inr numTxns) =>
                if 10000 <? numTxns then inl (UnreasonableTxnCount numTxns)
                else
                  let estimatedBytesNeeded := (numTxns * 100) mod 2 ^ 64 in
                  if Z.of_nat (bin.Remaining decoder) <? estimatedBytesNeeded
                  then inl (InsufficientBytes numTxns)
                  else
                    match read_transactions unmarshal (Z.to_nat numTxns) 0
                            decoder [] with
                    | inl e => inl e
                    | inr transactions =>
                        inr (mkEntry numHashes hash transactions)
                    end
            end
        end
  end.

Definition parseJitoEntry (unmarshal : TxDecoder) (buf : list byte)
  : EntryError + SolanaEntry :=
  let decoder := bin.NewBinDecoder buf in
  if (bin.Remaining decoder <? 16)%nat then inl HeaderTooShort
  else
    match bin.ReadUint64 decoder with
    | (_, inl e) => inl (SkipHeaderFailed e)
    | (_, inr _) => parseStandardEntry unmarshal (drop 8 buf)
    end.

(** ** The stand-alone standard decoder, [SolanaEntry.UnmarshalWithDecoder] *)

(** Its errors carry the cursor position, as the messages of the source do. *)
Inductive UnmarshalError :=
| NumHashesUnreadable (position : nat) (e : bin.Fault)
| HashUnreadable (position : nat) (e : bin.Fault)
| HashLength (bytesRead : nat)
| TxnCountUnreadable (position : nat) (e : bin.Fault)
| TxnCountUnreasonable (numTxns : Z)
| NotEnoughBytes (numTxns estimatedBytesNeeded : Z) (remaining : nat)
| TransactionFailed (ordinal numTxns : Z) (txStartPos : nat) (e : bin.Fault).

(** The loop of the method: any failing transaction ends it with an error.
    The slice built so far is returned too, since the method appends to
    the receiver's field as it goes. *)
Fixpoint unmarshal_transactions (unmarshal : TxDecoder) (todo : nat)
    (i numTxns : Z) (d : bin.Decoder) (acc : list solana.Transaction)
  : bin.Decoder * list solana.Transaction * option UnmarshalError :=
  match todo with
  | O => (d, acc, None)
  | S todo' =>
      let txStartPos := bin.Position d in
      match unmarshal d with
      | (d', inl e) =>
          (d', acc, Some (TransactionFailed (i + 1) numTxns txStartPos e))
      | (d', inr tx) =>
          unmarshal_transactions unmarshal todo' (i + 1) numTxns d'
            (acc ++ [tx])
      end
  end.

(** The method mutates its receiver [en] and the decoder: both are
    returned next to the [error] result ([None] is Go's [nil]). *)
Definition UnmarshalWithDecoder (unmarshal : TxDecoder) (en : SolanaEntry)
    (decoder : bin.Decoder)
  : SolanaEntry * bin.Decoder * option UnmarshalError :=
  match bin.ReadUint64 decoder with
  | (d1, inl e) =>
      (mkEntry 0 (Hash en) (Transactions en), d1,
       Some (NumHashesUnreadable (bin.Position d1) e))
  | (d1, inr numHashes) =>
      let en1 := mkEntry numHashes (Hash en) (Transactions en) in
      match bin.Read 32 d1 with
      | (d2, inl e) => (en1, d2, Some (HashUnreadable (bin.Position d2) e))
      | (d2, inr hashBytes) =>
          if negb (length hashBytes =? 32)%nat
          then (en1, d2, Some (HashLength (length hashBytes)))
          else
            let en2 := mkEntry numHashes hashBytes (Transactions en) in
            match bin.ReadUint64 d2 with
            | (d3, inl e) =>
                (en2, d3, Some (TxnCountUnreadable (bin.Position d3) e))
            | (d3, inr numTxns) =>
                if 10000 <? numTxns
                then (en2, d3, Some (TxnCountUnreasonable numTxns))
                else
                  let estimatedBytesNeeded := (numTxns * 100) mod 2 ^ 64 in
                  if Z.of_nat (bin.Remaining d3) <? estimatedBytesNeeded
                  then (en2, d3,
                        Some (NotEnoughBytes numTxns estimatedBytesNeeded
                                (bin.Remaining d3)))
                  else
                    let '(d4, txs, err) :=
                      unmarshal_transactions unmarshal (Z.to_nat numTxns) 0
                        numTxns d3 [] in
                    (mkEntry numHashes hashBytes txs, d4, err)
            end
      end
  end.

(** ** The watch-list and the address matcher *)

Definition targetAddresses : gmap string string :=
  {[ "TSLvdd1pWpHVjahSpsvCXUbgwsL3JAcvokwaKt1eokM"%string := "pump"%string ]}.

(** A key is looked up under its textual form, [key.String()], which
    belongs to the imported package: the matcher takes it as an argument. *)
Definition KeyString := solana.PublicKey -> string.

(** What a Go function call did: it returned a value or it panicked. *)
Inductive Run (A : Type) :=
| Done (a : A)
| Panic.
Arguments Done {A} a.
Arguments Panic {A}.

(** One iteration of the [range message.AccountKeys] loop.  On a hit the
    source prints [tx.Signatures[0]], which panics on a transaction
    without signatures. *)
Definition note_address (keyString : KeyString)
    (watch : gmap string string) (tx : solana.Transaction)
    (found : Run (gmap string string)) (key : solana.PublicKey)
  : Run (gmap string string) :=
  match found with
  | Panic => Panic
  | Done foundAddresses =>
      let keyStr := keyString key in
      match watch !! keyStr with
      | Some desc =>
          match solana.Signatures tx with
          | [] => Panic
          | _ :: _ => Done (<[keyStr := desc]> foundAddresses)
          end
      | None => Done foundAddresses
      end
  end.

Definition containsAddresses (keyString : KeyString)
    (watch : gmap string string) (message : solana.Message)
    (tx : solana.Transaction) : Run (gmap string string) :=
  foldl (note_address keyString watch tx) (Done ∅)
    (solana.AccountKeys message).

(** ** Access classification ([printTransactionDetails]) *)

Record AccountRow := mkRow {
  row_index : nat;
  row_key : solana.PublicKey;
  isWritable : bool;
  isSigner : bool;
  isPayer : bool
}.

(** The body of the [for i, key := range tx.Message.AccountKeys] loop. *)
Definition account_row (tx : solana.Transaction) (i : nat)
    (key : solana.PublicKey) : AccountRow :=
  let hdr := solana.Header (solana.TxMessage tx) in
  let numRequiredSignatures := solana.NumRequiredSignatures hdr in
  let numReadonlySignedAccounts := solana.NumReadonlySignedAccounts hdr in
  let numReadonlyUnsignedAccounts := solana.NumReadonlyUnsignedAccounts hdr in
  let idx := Z.of_nat i in
  let '(writable, signer) :=
    if idx <? numRequiredSignatures then
      (idx <? numRequiredSignatures - numReadonlySignedAccounts, true)
    else
      let totalReadonlyAccounts :=
        numReadonlySignedAccounts + numReadonlyUnsignedAccounts in
      (idx <? Z.of_nat (length (solana.AccountKeys (solana.TxMessage tx)))
              - totalReadonlyAccounts, false) in
  mkRow i key writable signer (Nat.eqb i 0).

Definition account_table (tx : solana.Transaction) : list AccountRow :=
  imap (account_row tx) (solana.AccountKeys (solana.TxMessage tx)).

Definition estimateTransactionSize (tx : solana.Transaction) : Z :=
  let sigSize := Z.of_nat (length (solana.Signatures tx)) * 64 in
  let headerSize := 3 in
  let recentBlockhashSize := 32 in
  let accountsSize :=
    Z.of_nat (length (solana.AccountKeys (solana.TxMessage tx))) * 32 in
  let instructionsSize :=
    fold_left
      (fun acc inst =>
         acc + (2 + Z.of_nat (length (solana.Accounts inst))
                  + Z.of_nat (length (solana.Data inst))))
      (solana.Instructions (solana.TxMessage tx)) 0 in
  let otherSize := 10 in
  sigSize + headerSize + recentBlockhashSize + accountsSize
  + instructionsSize + otherSize.

(** What [printTransactionDetails] prints, as data.  It indexes
    [tx.Signatures[0]] and [AccountKeys[inst.ProgramIDIndex]], and panics
    when either is out of range. *)
Record Details := mkDetails {
  det_signature : solana.Signature;
  det_accounts : list AccountRow;
  det_programs : list solana.PublicKey;
  det_blockhash : solana.Hash;
  det_size : Z
}.

Fixpoint program_ids (keys : list solana.PublicKey)
    (instrs : list solana.CompiledInstruction)
  : Run (list solana.PublicKey) :=
  match instrs with
  | [] => Done []
  | inst :: rest =>
      match keys !! Z.to_nat (solana.ProgramIDIndex inst) with
      | None => Panic
      | Some programID =>
          match program_ids keys rest with
          | Panic => Panic
          | Done ids => Done (programID :: ids)
          end
      end
  end.

Definition printTransactionDetails (tx : solana.Transaction) : Run Details :=
  match solana.Signatures tx with
  | [] => Panic
  | sig :: _ =>
      let msg := solana.TxMessage tx in
      match program_ids (solana.AccountKeys msg) (solana.Instructions msg) with
      | Panic => Panic
      | Done ids =>
          Done (mkDetails sig (account_table tx) ids
                  (solana.RecentBlockhash msg) (estimateTransactionSize tx))
      end
  end.

(** ** The process-wide counters *)

Record Stats := mkStats {
  totalEntries : Z;
  parsedEntries : Z;
  failedEntries : Z;
  totalTxs : Z;
  matchedTxs : Z;
  parseErrors : Z;
  reconnectCount : Z;
  lastSlot : Z
}.

Definition zeroStats : Stats := mkStats 0 0 0 0 0 0 0 0.

Definition add_totalEntries (n : Z) (s : Stats) : Stats :=
  mkStats (add64 (totalEntries s) n) (parsedEntries s) (failedEntries s)
    (totalTxs s) (matchedTxs s) (parseErrors s) (reconnectCount s)
    (lastSlot s).

Definition add_parsedEntries (n : Z) (s : Stats) : Stats :=
  mkStats (totalEntries s) (add64 (parsedEntries s) n) (failedEntries s)
    (totalTxs s) (matchedTxs s) (parseErrors s) (reconnectCount s)
    (lastSlot s).

Definition add_failedEntries (n : Z) (s : Stats) : Stats :=
  mkStats (totalEntries s) (parsedEntries s) (add64 (failedEntries s) n)
    (totalTxs s) (matchedTxs s) (parseErrors s) (reconnectCount s)
    (lastSlot s).

Definition add_totalTxs (n : Z) (s : Stats) : Stats :=
  mkStats (totalEntries s) (parsedEntries s) (failedEntries s)
    (add64 (totalTxs s) n) (matchedTxs s) (parseErrors s) (reconnectCount s)
    (lastSlot s).

Definition add_matchedTxs (n : Z) (s : Stats) : Stats :=
  mkStats (totalEntries s) (parsedEntries s) (failedEntries s)
    (totalTxs s) (add64 (matchedTxs s) n) (parseErrors s) (reconnectCount s)
    (lastSlot s).

Definition add_parseErrors (n : Z) (s : Stats) : Stats :=
  mkStats (totalEntries s) (parsedEntries s) (failedEntries s)
    (totalTxs s) (matchedTxs s) (add64 (parseErrors s) n) (reconnectCount s)
    (lastSlot s).

Definition store_lastSlot (v : Z) (s : Stats) : Stats :=
  mkStats (totalEntries s) (parsedEntries s) (failedEntries s)
    (totalTxs s) (matchedTxs s) (parseErrors s) (reconnectCount s) v.

(** ** [processEntry] *)

(** A frame of the stream, [pb_shredstream.Entry]. *)
Record RawEntry := mkRaw { Slot : Z; Entries : list byte }.

(** What [processEntry] prints for a transaction that touches the
    watch-list. *)
Record MatchReport := mkReport {
  rep_slot : Z;
  rep_tx : nat;
  rep_count : nat;
  rep_addresses : gmap string string;
  rep_details : Details
}.

(** The [for i, tx := range solanaEntry.Transactions] loop: the counters,
    the reports printed so far, and whether the loop ran to its end. *)
Fixpoint scan_transactions (keyString : KeyString)
    (watch : gmap string string) (slot : Z) (count : nat) (i : nat)
    (txs : list solana.Transaction) (st : Stats) (log : list MatchReport)
  : Stats * list MatchReport * Run unit :=
  match txs with
  | [] => (st, log, Done tt)
  | tx :: rest =>
      match containsAddresses keyString watch (solana.TxMessage tx) tx with
      | Panic => (st, log, Panic)
      | Done addressesFound =>
          if (0 <? size addressesFound)%nat then
            let st' := add_matchedTxs 1 st in
            match printTransactionDetails tx with
            | Panic => (st', log, Panic)
            | Done details =>
                scan_transactions keyString watch slot count (S i) rest st'
                  (log ++ [mkReport slot (S i) count addressesFound details])
            end
          else
            scan_transactions keyString watch slot count (S i) rest st log
      end
  end.

(** The result is the counters, the reports, and either the returned
    [error] ([None] is [nil]) or a panic. *)
Definition processEntry (keyString : KeyString) (watch : gmap string string)
    (unmarshal : TxDecoder) (st : Stats) (entry : RawEntry)
  : Stats * list MatchReport * Run (option EntryError) :=
  let entriesData := Entries entry in
  if (length entriesData <? 48)%nat
  then (st, [], Done (Some (TooSmall (length entriesData))))
  else
    match parseJitoEntry unmarshal entriesData with
    | inl err => (st, [], Done (Some (AllParsersFailed err)))
    | inr solanaEntry =>
        let txs := Transactions solanaEntry in
        let st1 := add_totalTxs (Z.of_nat (length txs)) st in
        match scan_transactions keyString watch (Slot entry) (length txs) 0
                txs st1 [] with
        | (st2, log, Panic) => (st2, log, Panic)
        | (st2, log, Done _) => (st2, log, Done None)
        end
    end.

(** ** The stream loop of [connectAndSubscribe] *)

(** The task handed to the pool: it runs [processEntry] and counts the
    outcome; a panic reaches the pool's panic handler. *)
Definition run_task (keyString : KeyString) (watch : gmap string string)
    (unmarshal : TxDecoder) (st : Stats) (entry : RawEntry) : Stats :=
  match processEntry keyString watch unmarshal st entry with
  | (st', _, Done (Some _)) => add_failedEntries 1 st'
  | (st', _, Done None) => add_parsedEntries 1 st'
  | (st', _, Panic) => add_parseErrors 1 st'
  end.

(** The slot-continuity test on an incoming frame. *)
Definition slot_gap (lastSlotValue currentSlot : Z) : bool :=
  (0 <? lastSlotValue) && (add64 lastSlotValue 10 <? currentSlot).

(** What the loop itself does with a received frame, after submitting the
    task: count it, test the slot gap, store the slot.  The [bool] is the
    gap warning. *)
Definition receive (st : Stats) (resp : RawEntry) : Stats * bool :=
  let st1 := add_totalEntries 1 st in
  let currentSlot := wrap64 (Slot resp) in
  let lastSlotValue := lastSlot st1 in
  (store_lastSlot currentSlot st1, slot_gap lastSlotValue currentSlot).

(** The loop receives frames one after the other; the pool runs accepted
    tasks at some later point, in any order, or never when it was full
    (the non-blocking [Submit] then drops the task). *)
Inductive Action :=
| Recv (resp : RawEntry)
| RunTask (entry : RawEntry).

Definition step (keyString : KeyString) (watch : gmap string string)
    (unmarshal : TxDecoder) (st : Stats) (a : Action) : Stats :=
  match a with
  | Recv resp => fst (receive st resp)
  | RunTask entry => run_task keyString watch unmarshal st entry
  end.

Definition run (keyString : KeyString) (watch : gmap string string)
    (unmarshal : TxDecoder) (st : Stats) (trace : list Action) : Stats :=
  foldl (step keyString watch unmarshal) st trace.

(** The slot of the last frame received in a trace. *)
Fixpoint last_received (trace : list Action) (default : Z) : Z :=
  match trace with
  | [] => default
  | Recv resp :: rest => last_received rest (wrap64 (Slot resp))
  | RunTask _ :: rest => last_received rest default
  end.

(** ** The periodic snapshot of [printStats] *)

(** The value of a [float64] quotient [float64(a) / float64(b) * 100], kept
    exact: the conversion of an [int64] is zero only at zero, so the three
    cases below are those of the hardware division. *)
Inductive Rate :=
| NaN
| Inf (negative : bool)
| Percent (num den : Z).

Definition rate (a b : Z) : Rate :=
  if b =? 0 then (if a =? 0 then NaN else Inf (a <? 0))
  else Percent (100 * a) b.

Record Snapshot := mkSnapshot {
  snap_slot : Z;
  snap_total : Z;
  snap_parsed : Z;
  snap_successRate : Rate;
  snap_txs : Z;
  snap_matched : Z;
  snap_matchRate : Rate;
  snap_errors : Z;
  snap_reconnects : Z
}.

(** One tick of the ticker: the report printed, if any. *)
Definition printStats (st : Stats) : option Snapshot :=
  let total := totalEntries st in
  let parsed := parsedEntries st in
  let txs := totalTxs st in
  let matched := matchedTxs st in
  let errors := parseErrors st in
  let reconnects := reconnectCount st in
  let currentSlot := lastSlot st in
  if 0 <? total then
    let successRate := rate parsed total in
    let matchRate := rate matched txs in
    Some (mkSnapshot currentSlot total parsed successRate txs matched
            matchRate errors reconnects)
  else None.

(** ** The big-endian decoder, [SolanaEntry.UnmarshalWithBigEndian] *)

(** [ReadUint64(bin.BE)]: the same 8 bytes as [bin.ReadUint64], the first
    one the most significant. *)
Definition ReadUint64BE : bin.Dec Z :=
  fun d =>
    match bin.Read 8 d with
    | (d', inl e) => (d', inl e)
    | (d', inr bs) => (d', inr (le_uint (rev bs)))
    end.

Inductive BigEndianError :=
| BEHashCountUnreadable (e : bin.Fault)
| BEHashCountUnreasonable (numHashes : Z)
| BEHashUnreadable (e : bin.Fault)
| BETxnCountUnreadable (e : bin.Fault)
| BETxnCountUnreasonable (numTxns : Z)
| BENotEnoughBytes (numTxns : Z)
| BEFirstTransaction (e : bin.Fault).

(** The loop of the method: a failure at [i > 0] leaves the loop, a
    failure at [i = 0] is returned. *)
Fixpoint big_endian_transactions (unmarshal : TxDecoder) (todo : nat)
    (i : Z) (d : bin.Decoder) (acc : list solana.Transaction)
  : bin.Decoder * list solana.Transaction * option BigEndianError :=
  match todo with
  | O => (d, acc, None)
  | S todo' =>
      match unmarshal d with
      | (d', inl e) =>
          if 0 <? i then (d', acc, None)
          else (d', acc, Some (BEFirstTransaction e))
      | (d', inr tx) =>
          big_endian_transactions unmarshal todo' (i + 1) d' (acc ++ [tx])
      end
  end.

Definition UnmarshalWithBigEndian (unmarshal : TxDecoder) (en : SolanaEntry)
    (decoder : bin.Decoder)
  : SolanaEntry * bin.Decoder * option BigEndianError :=
  match ReadUint64BE decoder with
  | (d1, inl e) =>
      (mkEntry 0 (Hash en) (Transactions en), d1,
       Some (BEHashCountUnreadable e))
  | (d1, inr numHashes) =>
      let en1 := mkEntry numHashes (Hash en) (Transactions en) in
      if 1000000 <? numHashes
      then (en1, d1, Some (BEHashCountUnreasonable numHashes))
      else
        match bin.Read 32 d1 with
        | (d2, inl e) => (en1, d2, Some (BEHashUnreadable e))
        | (d2, inr hashBytes) =>
            let en2 := mkEntry numHashes hashBytes (Transactions en) in
            match ReadUint64BE d2 with
            | (d3, inl e) => (en2, d3, Some (BETxnCountUnreadable e))
            | (d3, inr numTxns) =>
                if 10000 <? numTxns
                then (en2, d3, Some (BETxnCountUnreasonable numTxns))
                else
                  let estimatedBytesNeeded := (numTxns * 100) mod 2 ^ 64 in
                  if Z.of_nat (bin.Remaining d3) <? estimatedBytesNeeded
                  then (en2, d3, Some (BENotEnoughBytes numTxns))
                  else
                    let '(d4, txs, err) :=
                      big_endian_transactions unmarshal (Z.to_nat numTxns) 0
                        d3 [] in
                    (mkEntry numHashes hashBytes txs, d4, err)
            end
        end
  end.

(** ** Instruction data ([decodeInstructionData]) *)

Definition systemProgramID : string := "11111111111111111111111111111111".

Definition tokenProgramID : string :=
  "TokenkegQfeZyiNwAJbNbGKPFXCWuBvf9Ss623VQ5DA".

Definition systemInstructions : gmap Z string :=
  list_to_map
    [(0, "创建账户"); (1, "分配空间"); (2, "分配空间并赋予所有权");
     (3, "转账 SOL"); (4, "创建账户并转账 SOL"); (5, "升级可加载程序");
     (6, "创建不可编写账户"); (7, "转移所有权");
     (8, "创建不可编写账户并转移所有权")]%string.

Definition tokenInstructions : gmap Z string :=
  list_to_map
    [(0, "初始化代币铸造"); (1, "创建代币账户"); (2, "铸造代币");
     (3, "销毁代币"); (4, "转移代币"); (5, "授权代币操作");
     (6, "撤销代币操作授权"); (7, "设置代币账户所有者"); (8, "铸币授权");
     (9, "设置代币账户关闭授权"); (10, "关闭代币账户");
     (11, "冻结代币账户"); (12, "解冻代币账户")]%string.

(** The lines the function prints, as data.  The transfer line also shows
    the amount in SOL, a [float64] quotient of the same integer, which is
    not kept here. *)
Inductive InstructionLine :=
| SystemInstruction (name : string)
| TransferLamports (amount : Z)
| TokenInstruction (name : string)
| TokenUnits (amount : Z).

Definition decodeInstructionData (programID : string) (blob : list byte)
  : list InstructionLine :=
  (if String.eqb programID systemProgramID && (4 <? length blob)%nat then
     let instructionType := le_uint (take 4 blob) in
     match systemInstructions !! instructionType with
     | Some name =>
         SystemInstruction name
         :: (if (instructionType =? 3) && (12 <=? length blob)%nat
             then [TransferLamports (le_uint (take 8 (drop 4 blob)))]
             else [])
     | None => []
     end
   else [])
  ++
  (if String.eqb programID tokenProgramID && (0 <? length blob)%nat then
     let instructionType := le_uint (take 1 blob) in
     match tokenInstructions !! instructionType with
     | Some name =>
         TokenInstruction name
         :: (if (instructionType =? 4) && (9 <=? length blob)%nat
             then [TokenUnits (le_uint (take 8 (drop 1 blob)))]
             else [])
     | None => []
     end
   else []).

(** ** The reconnect loop of [main] *)

Definition add_reconnectCount (n : Z) (s : Stats) : Stats :=
  mkStats (totalEntries s) (parsedEntries s) (failedEntries s)
    (totalTxs s) (matchedTxs s) (parseErrors s)
    (add64 (reconnectCount s) n) (lastSlot s).

(** One call of [connectAndSubscribe] as [main] sees it.  It returns an
    error when the connection, the subscription or the pool cannot be set
    up, which is before any frame is read; once its stream loop runs, its
    only return is [nil], at the end of the stream. *)
Inductive Session :=
| SetupFailed
| Streamed (trace : list Action).

Definition main_iteration (keyString : KeyString)
    (watch : gmap string string) (unmarshal : TxDecoder) (st : Stats)
    (s : Session) : Stats :=
  match s with
  | SetupFailed => add_reconnectCount 1 st
  | Streamed trace => run keyString watch unmarshal st trace
  end.

Definition main_loop (keyString : KeyString) (watch : gmap string string)
    (unmarshal : TxDecoder) (st : Stats) (sessions : list Session) : Stats :=
  foldl (main_iteration keyString watch unmarshal) st sessions.

(** ** What the claims are stated with *)

(** The fields a standard-framed buffer declares, read off the bytes. *)
Definition declared_hashes (buf : list byte) : Z := le_uint (take 8 buf).

Definition declared_hash (buf : list byte) : solana.Hash :=
  take 32 (drop 8 buf).

Definition declared_txns (buf : list byte) : Z :=
  le_uint (take 8 (drop 40 buf)).

(** The cursor at the first transaction, after the 48 bytes of prefix. *)
Definition body_cursor (buf : list byte) : bin.Decoder := bin.mkDecoder buf 48.

(** The three fields are present and pass every check that precedes the
    transaction loop. *)
Definition well_formed_prefix (buf : list byte) : Prop :=
  (48 <= length buf)%nat /\
  declared_hashes buf <= 1000000 /\
  declared_txns buf <= 10000 /\
  100 * declared_txns buf <= Z.of_nat (length buf) - 48.

(** [k] transactions decoded one after the other from a cursor, every one
    of them successfully. *)
Fixpoint decode_all (unmarshal : TxDecoder) (k : nat) (d : bin.Decoder)
  : option (list solana.Transaction * bin.Decoder) :=
  match k with
  | O => Some ([], d)
  | S k' =>
      match unmarshal d with
      | (_, inl _) => None
      | (d', inr tx) =>
          match decode_all unmarshal k' d' with
          | Some (txs, d'') => Some (tx :: txs, d'')
          | None => None
          end
      end
  end.

(** The keys of a message in their textual form. *)
Definition key_strings (keyString : KeyString) (message : solana.Message)
  : list string :=
  keyString <$> solana.AccountKeys message.

(** A rate that reads 0%. *)
Definition zero_percent (r : Rate) : Prop :=
  match r with
  | Percent num den => num = 0 /\ den <> 0
  | _ => False
  end.

(** The snapshot as claim C9 words it: a report in which a rate whose
    denominator counter is zero reads 0%. *)
Definition tolerates_zero_denominator (st : Stats) : Prop :=
  exists snap,
    printStats st = Some snap /\
    (totalEntries st = 0 -> zero_percent (snap_successRate snap)) /\
    (totalTxs st = 0 -> zero_percent (snap_matchRate snap)).

(** ** What the further properties are stated with *)

(** The values of Go's [int64]. *)
Definition int64 (z : Z) : Prop := - 2 ^ 63 <= z < 2 ^ 63.

(** The fields a big-endian buffer declares. *)
Definition be_declared_hashes (buf : list byte) : Z :=
  le_uint (rev (take 8 buf)).

Definition be_declared_txns (buf : list byte) : Z :=
  le_uint (rev (take 8 (drop 40 buf))).

Fixpoint count_received (trace : list Action) : Z :=
  match trace with
  | [] => 0
  | Recv _ :: rest => 1 + count_received rest
  | RunTask _ :: rest => count_received rest
  end.

Fixpoint count_tasks (trace : list Action) : Z :=
  match trace with
  | [] => 0
  | Recv _ :: rest => count_tasks rest
  | RunTask _ :: rest => 1 + count_tasks rest
  end.

Fixpoint count_failed_setups (sessions : list Session) : Z :=
  match sessions with
  | [] => 0
  | SetupFailed :: rest => 1 + count_failed_setups rest
  | Streamed _ :: rest => count_failed_setups rest
  end.

(** The [n] low bytes of [z], least significant first. *)
Definition byte_of (z : Z) : byte :=
  match Byte.of_N (Z.to_N (z mod 256)) with
  | Some b => b
  | None => x00
  end.

Fixpoint le_bytes (n : nat) (z : Z) : list byte :=
  match n with
  | O => []
  | S n' => byte_of z :: le_bytes n' (z / 256)
  end.

(** An account index that [AccountKeys] does not have. *)
Definition bad_program_index (keys : list solana.PublicKey)
    (inst : solana.CompiledInstruction) : Prop :=
  (length keys <= Z.to_nat (solana.ProgramIDIndex inst))%nat.

(** ** Sample data *)

(** Base58, the textual form of a key: one ['1'] per leading zero byte,
    then the big-endian value of the bytes in base 58. *)
Definition b58_alphabet : string :=
  "123456789ABCDEFGHJKLMNPQRSTUVWXYZabcdefghijkmnopqrstuvwxyz".

Definition be_uint (bs : list byte) : Z :=
  fold_left (fun acc b => 256 * acc + byte_val b) bs 0.

Fixpoint b58_digits (fuel : nat) (n : Z) (acc : string) : string :=
  match fuel with
  | O => acc
  | S fuel' =>
      if n =? 0 then acc
      else
        match String.get (Z.to_nat (n mod 58)) b58_alphabet with
        | Some c => b58_digits fuel' (n / 58) (String c acc)
        | None => acc
        end
  end.

Fixpoint b58_zeros (bs : list byte) : string :=
  match bs with
  | b :: rest =>
      if byte_val b =? 0 then String "1" (b58_zeros rest) else EmptyString
  | [] => EmptyString
  end.

Definition base58 (bs : list byte) : string :=
  (b58_zeros bs ++ b58_digits (2 * length bs) (be_uint bs) EmptyString)%string.

(** The watched key, [TSLvdd1pWpHVjahSpsvCXUbgwsL3JAcvokwaKt1eokM]. *)
Definition pump_key : solana.PublicKey :=
  [x06; xc5; xc1; xce; x63; x8d; x25; x67; xd2; x64; x68; xb0; x5e; xb9;
   x51; xd1; xa2; x8d; xcc; x6e; x12; x34; x82; xb5; xc6; x75; x14; x97;
   x70; xe6; x2b; xf2].

Definition zeros (n : nat) : list byte := replicate n x00.

(** A transaction on the wire: one signature, header (1, 0, 0), the
    watched key as its only account, a blockhash, no instruction. *)
Definition sample_tx_bytes : list byte :=
  [x01] ++ zeros 64 ++ [x01; x00; x00] ++ [x01] ++ pump_key ++ zeros 32
  ++ [x00].

Definition sample_tx : solana.Transaction :=
  solana.mkTransaction [zeros 64]
    (solana.mkMessage [pump_key] (solana.mkHeader 1 0 0) (zeros 32) []).

(** Bytes that no transaction decoder accepts at the end of a buffer:
    two signatures are declared and fewer than 128 bytes follow. *)
Definition broken_tx_bytes (n : nat) : list byte := [x02] ++ zeros n.

Definition u64_bytes (b0 b1 : byte) : list byte := [b0; b1] ++ zeros 6.

(** A standard-framed entry: 5 hashes, 2 declared transactions, the
    second of them broken. *)
Definition sample_entry_bytes : list byte :=
  u64_bytes x05 x00 ++ zeros 32 ++ u64_bytes x02 x00 ++ sample_tx_bytes
  ++ broken_tx_bytes 65.

(** One declared transaction, which is broken. *)
Definition broken_entry_bytes : list byte :=
  u64_bytes x05 x00 ++ zeros 32 ++ u64_bytes x01 x00 ++ broken_tx_bytes 99.

(** One declared transaction, which decodes. *)
Definition whole_entry_bytes (numHashes : list byte) : list byte :=
  numHashes ++ zeros 32 ++ u64_bytes x01 x00 ++ sample_tx_bytes.

(** The headered framing of a standard-framed buffer. *)
Definition headered (buf : list byte) : list byte := zeros 8 ++ buf.

(** The header of the classification example: 2 signers, 1 of them
    read-only, 1 read-only non-signer, over 4 keys. *)
Definition example_tx : solana.Transaction :=
  solana.mkTransaction [zeros 64]
    (solana.mkMessage [zeros 32; pump_key; zeros 32; zeros 32]
       (solana.mkHeader 2 1 1) (zeros 32) []).

(** A big-endian entry: 5 hashes, [count] declared transactions. *)
Definition be_entry_bytes (count : byte) (body : list byte) : list byte :=
  rev (u64_bytes x05 x00) ++ zeros 32 ++ rev (u64_bytes count x00) ++ body.

(** The same header over 5 keys. *)
Definition five_key_tx : solana.Transaction :=
  solana.mkTransaction [zeros 64]
    (solana.mkMessage [zeros 32; pump_key; zeros 32; zeros 32; zeros 32]
       (solana.mkHeader 2 1 1) (zeros 32) []).

(** ** Facts about the cursor *)

Example base58_pump_key :
  base58 pump_key = "TSLvdd1pWpHVjahSpsvCXUbgwsL3JAcvokwaKt1eokM"%string.
Proof. vm_compute. reflexivity. Qed.

Example sample_tx_decodes :
  solana.UnmarshalWithDecoder (bin.NewBinDecoder sample_tx_bytes)
  = (bin.mkDecoder sample_tx_bytes 134, inr sample_tx).
Proof. vm_compute. reflexivity. Qed.

Example broken_tx_fails :
  snd (solana.UnmarshalWithDecoder (bin.NewBinDecoder (broken_tx_bytes 99)))
  = inl bin.Truncated.
Proof. vm_compute. reflexivity. Qed.

Lemma byte_val_nonneg b : 0 <= byte_val b.
Proof. unfold byte_val. lia. Qed.

Lemma le_uint_nonneg bs : 0 <= le_uint bs.
Proof.
  induction bs as [|b rest IH]; simpl; [lia|].
  pose proof (byte_val_nonneg b). lia.
Qed.

Lemma Read_enough n d :
  (n <= bin.Remaining d)%nat ->
  bin.Read n d
  = (bin.advance n d, inr (take n (drop (bin.pos d) (bin.data d)))).
Proof.
  intros Hn. unfold bin.Read.
  destruct (Nat.ltb_spec (bin.Remaining d) n); [lia | reflexivity].
Qed.

Lemma Read_short n d :
  (bin.Remaining d < n)%nat -> bin.Read n d = (d, inl bin.Truncated).
Proof.
  intros Hn. unfold bin.Read.
  destruct (Nat.ltb_spec (bin.Remaining d) n); [reflexivity | lia].
Qed.

Lemma ReadUint64_enough d :
  (8 <= bin.Remaining d)%nat ->
  bin.ReadUint64 d
  = (bin.advance 8 d, inr (le_uint (take 8 (drop (bin.pos d) (bin.data d))))).
Proof. intros Hn. unfold bin.ReadUint64. now rewrite Read_enough. Qed.

(** ** Facts about the standard decoder *)

Section StandardDecoder.

Variable unmarshal : TxDecoder.

(** With its 48 bytes of prefix present, [parseStandardEntry] is three
    tests on the declared fields followed by the transaction loop. *)
Lemma parseStandardEntry_prefix buf :
  (48 <= length buf)%nat ->
  parseStandardEntry unmarshal buf
  = if 1000000 <? declared_hashes buf
    then inl (UnreasonableHashCount (declared_hashes buf))
    else if 10000 <? declared_txns buf
    then inl (UnreasonableTxnCount (declared_txns buf))
    else if Z.of_nat (length buf) - 48 <? 100 * declared_txns buf
    then inl (InsufficientBytes (declared_txns buf))
    else
      match read_transactions unmarshal (Z.to_nat (declared_txns buf)) 0
              (body_cursor buf) [] with
      | inl e => inl e
      | inr txs =>
          inr (mkEntry (declared_hashes buf) (declared_hash buf) txs)
      end.
Proof.
  intros Hlen. unfold parseStandardEntry.
  rewrite ReadUint64_enough by (unfold bin.Remaining; simpl; lia).
  cbn [bin.NewBinDecoder bin.pos bin.data]. rewrite drop_0.
  fold (declared_hashes buf).
  destruct (1000000 <? declared_hashes buf); [reflexivity|].
  rewrite Read_enough by (unfold bin.Remaining; simpl; lia).
  rewrite ReadUint64_enough by (unfold bin.Remaining; simpl; lia).
  unfold bin.Remaining, bin.advance, bin.NewBinDecoder.
  cbn [bin.pos bin.data Nat.add].
  fold (declared_hash buf). fold (declared_txns buf). fold (body_cursor buf).
  destruct (Z.ltb_spec 10000 (declared_txns buf)) as [Hbig|Hsmall];
    [reflexivity|].
  assert (Hnn : 0 <= declared_txns buf) by apply le_uint_nonneg.
  rewrite Z.mod_small by lia.
  replace (Z.of_nat (length buf - 48)) with (Z.of_nat (length buf) - 48)
    by lia.
  replace (declared_txns buf * 100) with (100 * declared_txns buf) by lia.
  reflexivity.
Qed.

(** The loop stops at the first transaction that fails: it reports an
    error when that is the very first one, and the slice built so far
    otherwise. *)
Lemma read_transactions_stops k :
  forall todo i d acc txs d1 d2 e,
    (k < todo)%nat ->
    0 <= i ->
    decode_all unmarshal k d = Some (txs, d1) ->
    unmarshal d1 = (d2, inl e) ->
    read_transactions unmarshal todo i d acc
    = if i + Z.of_nat k =? 0 then inl (FirstTransactionCorrupt e)
      else inr (acc ++ txs).
Proof.
  induction k as [|k IH]; intros todo i d acc txs d1 d2 e Hk Hi Hall Hbad.
  - simpl in Hall. injection Hall as <- <-.
    destruct todo as [|todo]; [lia|]. simpl. rewrite Hbad.
    replace (i + Z.of_nat 0) with i by lia.
    rewrite app_nil_r. reflexivity.
  - simpl in Hall.
    destruct (unmarshal d) as [d' [err|tx]] eqn:Hfirst; [discriminate|].
    destruct (decode_all unmarshal k d') as [[txs' d'']|] eqn:Hrest;
      [|discriminate].
    injection Hall as Htxs Hd. subst txs d''.
    destruct todo as [|todo]; [lia|]. simpl. rewrite Hfirst.
    rewrite (IH todo (i + 1) d' (acc ++ [tx]) txs' d1 d2 e)
      by (lia || assumption).
    destruct (Z.eqb_spec (i + 1 + Z.of_nat k) 0) as [H0|_]; [lia|].
    destruct (Z.eqb_spec (i + Z.of_nat (S k)) 0) as [H0|_]; [lia|].
    now rewrite <- app_assoc.
Qed.

(** When every declared transaction decodes, the loop returns them all. *)
Lemma read_transactions_all todo :
  forall i d acc txs d1,
    decode_all unmarshal todo d = Some (txs, d1) ->
    read_transactions unmarshal todo i d acc = inr (acc ++ txs).
Proof.
  induction todo as [|todo IH]; intros i d acc txs d1 Hall.
  - simpl in Hall. injection Hall as <- <-. simpl. now rewrite app_nil_r.
  - simpl in Hall. simpl.
    destruct (unmarshal d) as [d' [err|tx]] eqn:Hfirst; [discriminate|].
    destruct (decode_all unmarshal todo d') as [[txs' d'']|] eqn:Hrest;
      [|discriminate].
    injection Hall as Htxs Hd. subst txs d''.
    rewrite (IH (i + 1) d' (acc ++ [tx]) txs' d1 Hrest).
    now rewrite <- app_assoc.
Qed.

(** The headered decoder on a buffer of 16 bytes or more. *)
Lemma parseJitoEntry_long buf :
  (16 <= length buf)%nat ->
  parseJitoEntry unmarshal buf = parseStandardEntry unmarshal (drop 8 buf).
Proof.
  intros Hlen. unfold parseJitoEntry.
  assert (Hrem : bin.Remaining (bin.NewBinDecoder buf) = length buf)
    by (unfold bin.Remaining; simpl; lia).
  rewrite Hrem.
  destruct (Nat.ltb_spec (length buf) 16); [lia|].
  rewrite ReadUint64_enough by lia. reflexivity.
Qed.

End StandardDecoder.

(** A buffer too short for its prefix never yields an entry. *)
Lemma parseStandardEntry_short unmarshal buf :
  (length buf < 48)%nat ->
  exists err, parseStandardEntry unmarshal buf = inl err.
Proof.
  intros Hlen. unfold parseStandardEntry.
  destruct (le_lt_dec 8 (length buf)) as [H8|H8].
  2:{ unfold bin.ReadUint64.
      rewrite Read_short by (unfold bin.Remaining; simpl; lia). eauto. }
  rewrite ReadUint64_enough by (unfold bin.Remaining; simpl; lia).
  match goal with |- context [if ?c then _ else _] => destruct c end;
    [eauto|].
  destruct (le_lt_dec 40 (length buf)) as [H40|H40].
  2:{ rewrite Read_short by (unfold bin.Remaining; simpl; lia). eauto. }
  rewrite Read_enough by (unfold bin.Remaining; simpl; lia).
  unfold bin.ReadUint64.
  rewrite Read_short by (unfold bin.Remaining; simpl; lia). eauto.
Qed.

(** Closed side conditions on sample data are settled by evaluation. *)
Ltac by_evaluation :=
  match goal with
  | |- (_ <= _)%nat => apply Nat.leb_le; vm_compute; reflexivity
  | |- (_ < _)%nat => apply Nat.ltb_lt; vm_compute; reflexivity
  | |- _ <= _ => apply Z.leb_le; vm_compute; reflexivity
  | |- _ < _ => apply Z.ltb_lt; vm_compute; reflexivity
  | |- _ = _ => vm_compute; reflexivity
  end.

Ltac prefix_by_evaluation :=
  unfold well_formed_prefix; repeat split; by_evaluation.

(** ** The claims about the entry decoders *)

(** C1. The headered decode applies the per-transaction failure policy.
    When the first declared transaction fails to decode, the decode
    returns an error and no entry, whatever the buffer; on a buffer whose
    prefix passes its checks the error is that of the first transaction.
    When the first [k > 0] transactions decode and transaction [k], one
    of the declared ones, fails, the decode succeeds with exactly those
    [k] transactions, in order. *)
Theorem per_transaction_failure_policy
    (unmarshal : TxDecoder) (buf : list byte) :
  let body := drop 8 buf in
  (forall d e,
      1 <= declared_txns body ->
      unmarshal (body_cursor body) = (d, inl e) ->
      exists err,
        parseJitoEntry unmarshal buf = inl err /\
        (well_formed_prefix body -> err = FirstTransactionCorrupt e))
  /\
  (forall k txs d1 d2 e,
      well_formed_prefix body ->
      (0 < k)%nat ->
      Z.of_nat k < declared_txns body ->
      decode_all unmarshal k (body_cursor body) = Some (txs, d1) ->
      unmarshal d1 = (d2, inl e) ->
      parseJitoEntry unmarshal buf
      = inr (mkEntry (declared_hashes body) (declared_hash body) txs)).
Proof.
  intros body. split.
  - intros d e Hcount Hbad.
    destruct (le_lt_dec 16 (length buf)) as [H16|H16].
    2:{ exists HeaderTooShort. split.
        - unfold parseJitoEntry, bin.Remaining. simpl.
          destruct (Nat.ltb_spec (length buf - 0) 16); [reflexivity | lia].
        - intros [Hlen _]. subst body. rewrite length_drop in Hlen. lia. }
    rewrite parseJitoEntry_long by assumption. fold body.
    destruct (le_lt_dec 48 (length body)) as [H48|H48].
    2:{ destruct (parseStandardEntry_short unmarshal body H48) as [err Herr].
        exists err. split; [assumption|]. intros [Hlen _]. lia. }
    rewrite parseStandardEntry_prefix by assumption.
    destruct (Z.ltb_spec 1000000 (declared_hashes body)).
    { eexists. split; [reflexivity|]. intros (_ & Hh & _). lia. }
    destruct (Z.ltb_spec 10000 (declared_txns body)).
    { eexists. split; [reflexivity|]. intros (_ & _ & Ht & _). lia. }
    destruct (Z.ltb_spec (Z.of_nat (length body) - 48)
                (100 * declared_txns body)).
    { eexists. split; [reflexivity|]. intros (_ & _ & _ & Hb). lia. }
    rewrite (read_transactions_stops unmarshal 0 _ 0 (body_cursor body) []
               [] (body_cursor body) d e) by (lia || reflexivity || assumption).
    simpl. eauto.
  - intros k txs d1 d2 e (Hlen & Hh & Ht & Hb) Hk Hdecl Hall Hbad.
    assert (H16 : (16 <= length buf)%nat).
    { subst body. rewrite length_drop in Hlen. lia. }
    rewrite parseJitoEntry_long by assumption. fold body.
    rewrite parseStandardEntry_prefix by assumption.
    destruct (Z.ltb_spec 1000000 (declared_hashes body)); [lia|].
    destruct (Z.ltb_spec 10000 (declared_txns body)); [lia|].
    destruct (Z.ltb_spec (Z.of_nat (length body) - 48)
                (100 * declared_txns body)); [lia|].
    rewrite (read_transactions_stops unmarshal k _ 0 (body_cursor body) []
               txs d1 d2 e) by (lia || assumption).
    destruct (Z.eqb_spec (0 + Z.of_nat k) 0); [lia | reflexivity].
Qed.

Lemma per_transaction_failure_policy_witness :
  parseJitoEntry solana.UnmarshalWithDecoder (headered broken_entry_bytes)
  = inl (FirstTransactionCorrupt bin.Truncated)
  /\
  parseJitoEntry solana.UnmarshalWithDecoder (headered sample_entry_bytes)
  = inr (mkEntry 5 (zeros 32) [sample_tx]).
Proof.
  split.
  - edestruct (proj1 (per_transaction_failure_policy
                        solana.UnmarshalWithDecoder
                        (headered broken_entry_bytes)))
      as [err [Herr Hwf]].
    + by_evaluation.
    + vm_compute. reflexivity.
    + rewrite Herr, Hwf; [reflexivity | prefix_by_evaluation].
  - erewrite (proj2 (per_transaction_failure_policy
                       solana.UnmarshalWithDecoder
                       (headered sample_entry_bytes)) 1%nat).
    + vm_compute. reflexivity.
    + prefix_by_evaluation.
    + by_evaluation.
    + by_evaluation.
    + vm_compute. reflexivity.
    + vm_compute. reflexivity.
Defined.

(** C2. On a buffer of at least 16 bytes the headered decode is the
    standard decode of the buffer without its first 8 bytes: the same
    entry or the same error. *)
Theorem headered_is_standard_after_header
    (unmarshal : TxDecoder) (buf : list byte) :
  (16 <= length buf)%nat ->
  parseJitoEntry unmarshal buf = parseStandardEntry unmarshal (drop 8 buf).
Proof. apply parseJitoEntry_long. Qed.

Lemma headered_is_standard_after_header_witness :
  (16 <= length (headered sample_entry_bytes))%nat /\
  parseJitoEntry solana.UnmarshalWithDecoder (headered sample_entry_bytes)
  = parseStandardEntry solana.UnmarshalWithDecoder
      (drop 8 (headered sample_entry_bytes)).
Proof.
  split; [by_evaluation|].
  apply headered_is_standard_after_header. by_evaluation.
Defined.

(** C3. A declared hash count above 1,000,000 makes the standard decode
    fail with the unreasonable-hash-count error, and, the hash count
    having passed, a declared transaction count above 10,000 makes it fail
    with the unreasonable-transaction-count error.  Neither depends on the
    bytes that follow the field nor on the transaction decoder, which is
    arbitrary here: no transaction is parsed. *)
Theorem unreasonable_counts_rejected
    (unmarshal : TxDecoder) (buf : list byte) :
  ((8 <= length buf)%nat ->
   1000000 < declared_hashes buf ->
   parseStandardEntry unmarshal buf
   = inl (UnreasonableHashCount (declared_hashes buf)))
  /\
  ((48 <= length buf)%nat ->
   declared_hashes buf <= 1000000 ->
   10000 < declared_txns buf ->
   parseStandardEntry unmarshal buf
   = inl (UnreasonableTxnCount (declared_txns buf))).
Proof.
  split.
  - intros Hlen Hbig. unfold parseStandardEntry.
    rewrite ReadUint64_enough by (unfold bin.Remaining; simpl; lia).
    cbn [bin.NewBinDecoder bin.pos bin.data]. rewrite drop_0.
    fold (declared_hashes buf).
    destruct (Z.ltb_spec 1000000 (declared_hashes buf)); [reflexivity | lia].
  - intros Hlen Hh Hbig. rewrite parseStandardEntry_prefix by assumption.
    destruct (Z.ltb_spec 1000000 (declared_hashes buf)); [lia|].
    destruct (Z.ltb_spec 10000 (declared_txns buf)); [reflexivity | lia].
Qed.

(** Eight bytes that spell 2^64 - 1, alone, and a prefix that declares
    65,535 transactions with nothing behind it. *)
Lemma unreasonable_counts_rejected_witness :
  parseStandardEntry solana.UnmarshalWithDecoder (replicate 8 xff)
  = inl (UnreasonableHashCount (2 ^ 64 - 1))
  /\
  parseStandardEntry solana.UnmarshalWithDecoder
    (u64_bytes x05 x00 ++ zeros 32 ++ u64_bytes xff xff)
  = inl (UnreasonableTxnCount 65535).
Proof.
  split.
  - rewrite (proj1 (unreasonable_counts_rejected
                      solana.UnmarshalWithDecoder (replicate 8 xff))).
    + vm_compute. reflexivity.
    + by_evaluation.
    + by_evaluation.
  - rewrite (proj2 (unreasonable_counts_rejected
                      solana.UnmarshalWithDecoder
                      (u64_bytes x05 x00 ++ zeros 32 ++ u64_bytes xff xff))).
    + vm_compute. reflexivity.
    + by_evaluation.
    + by_evaluation.
    + by_evaluation.
Defined.

(** C5. When the hash count and the transaction count pass their checks
    and the declared count times 100 exceeds the bytes left after the
    48-byte prefix, the standard decode fails with the insufficient-bytes
    error, for any transaction decoder: none is parsed. *)
Theorem insufficient_bytes_rejected
    (unmarshal : TxDecoder) (buf : list byte) :
  (48 <= length buf)%nat ->
  declared_hashes buf <= 1000000 ->
  declared_txns buf <= 10000 ->
  Z.of_nat (length buf) - 48 < declared_txns buf * 100 ->
  parseStandardEntry unmarshal buf
  = inl (InsufficientBytes (declared_txns buf)).
Proof.
  intros Hlen Hh Ht Hb. rewrite parseStandardEntry_prefix by assumption.
  destruct (Z.ltb_spec 1000000 (declared_hashes buf)); [lia|].
  destruct (Z.ltb_spec 10000 (declared_txns buf)); [lia|].
  destruct (Z.ltb_spec (Z.of_nat (length buf) - 48)
              (100 * declared_txns buf)); [reflexivity | lia].
Qed.

(** One transaction declared, 99 bytes behind the prefix. *)
Lemma insufficient_bytes_rejected_witness :
  parseStandardEntry solana.UnmarshalWithDecoder
    (u64_bytes x05 x00 ++ zeros 32 ++ u64_bytes x01 x00 ++ zeros 99)
  = inl (InsufficientBytes 1).
Proof.
  rewrite (insufficient_bytes_rejected solana.UnmarshalWithDecoder).
  - vm_compute. reflexivity.
  - by_evaluation.
  - by_evaluation.
  - by_evaluation.
  - by_evaluation.
Defined.

(** C4. On a payload shorter than 48 bytes [processEntry] returns the
    too-small error at once: no counter moves, nothing is reported and no
    entry is built. *)
Theorem processEntry_too_small
    (keyString : KeyString) (watch : gmap string string)
    (unmarshal : TxDecoder) (st : Stats) (entry : RawEntry) :
  (length (Entries entry) < 48)%nat ->
  processEntry keyString watch unmarshal st entry
  = (st, [], Done (Some (TooSmall (length (Entries entry))))).
Proof.
  intros Hlen. unfold processEntry.
  destruct (Nat.ltb_spec (length (Entries entry)) 48); [reflexivity | lia].
Qed.

Lemma processEntry_too_small_witness :
  processEntry base58 targetAddresses solana.UnmarshalWithDecoder zeroStats
    (mkRaw 7 (zeros 47))
  = (zeroStats, [], Done (Some (TooSmall 47))).
Proof.
  rewrite (processEntry_too_small base58 targetAddresses
             solana.UnmarshalWithDecoder zeroStats (mkRaw 7 (zeros 47))).
  - vm_compute. reflexivity.
  - by_evaluation.
Defined.

(** ** The stand-alone decoder *)

Section StrictDecoder.

Variable unmarshal : TxDecoder.

Lemma unmarshal_transactions_stops k :
  forall todo i n d acc txs d1 d2 e,
    (k < todo)%nat ->
    decode_all unmarshal k d = Some (txs, d1) ->
    unmarshal d1 = (d2, inl e) ->
    unmarshal_transactions unmarshal todo i n d acc
    = (d2, acc ++ txs,
       Some (TransactionFailed (i + Z.of_nat k + 1) n (bin.Position d1) e)).
Proof.
  induction k as [|k IH]; intros todo i n d acc txs d1 d2 e Hk Hall Hbad.
  - simpl in Hall. injection Hall as Htxs Hd. subst txs d1.
    destruct todo as [|todo]; [lia|]. simpl. rewrite Hbad.
    rewrite app_nil_r. do 3 f_equal. lia.
  - simpl in Hall.
    destruct (unmarshal d) as [d' [err|tx]] eqn:Hfirst; [discriminate|].
    destruct (decode_all unmarshal k d') as [[txs' d'']|] eqn:Hrest;
      [|discriminate].
    injection Hall as Htxs Hd. subst txs d''.
    destruct todo as [|todo]; [lia|]. simpl. rewrite Hfirst.
    rewrite (IH todo (i + 1) n d' (acc ++ [tx]) txs' d1 d2 e)
      by (lia || assumption).
    rewrite <- app_assoc. simpl. do 3 f_equal. lia.
Qed.

Lemma unmarshal_transactions_all todo :
  forall i n d acc txs d1,
    decode_all unmarshal todo d = Some (txs, d1) ->
    unmarshal_transactions unmarshal todo i n d acc = (d1, acc ++ txs, None).
Proof.
  induction todo as [|todo IH]; intros i n d acc txs d1 Hall.
  - simpl in Hall. injection Hall as Htxs Hd. subst txs d1. simpl.
    now rewrite app_nil_r.
  - simpl in Hall. simpl.
    destruct (unmarshal d) as [d' [err|tx]] eqn:Hfirst; [discriminate|].
    destruct (decode_all unmarshal todo d') as [[txs' d'']|] eqn:Hrest;
      [|discriminate].
    injection Hall as Htxs Hd. subst txs d''.
    rewrite (IH (i + 1) n d' (acc ++ [tx]) txs' d1 Hrest).
    now rewrite <- app_assoc.
Qed.

(** With the prefix present and the transaction count plausible, the
    method is its transaction loop: the hash count is stored unexamined. *)
Lemma UnmarshalWithDecoder_prefix en buf :
  (48 <= length buf)%nat ->
  declared_txns buf <= 10000 ->
  100 * declared_txns buf <= Z.of_nat (length buf) - 48 ->
  UnmarshalWithDecoder unmarshal en (bin.NewBinDecoder buf)
  = let '(d, txs, err) :=
      unmarshal_transactions unmarshal (Z.to_nat (declared_txns buf)) 0
        (declared_txns buf) (body_cursor buf) [] in
    (mkEntry (declared_hashes buf) (declared_hash buf) txs, d, err).
Proof.
  intros Hlen Ht Hb. unfold UnmarshalWithDecoder.
  rewrite ReadUint64_enough by (unfold bin.Remaining; simpl; lia).
  rewrite Read_enough by (unfold bin.Remaining; simpl; lia).
  unfold bin.advance, bin.NewBinDecoder. cbn [bin.pos bin.data Nat.add].
  rewrite drop_0.
  assert (H32 : length (take 32 (drop 8 buf)) = 32%nat)
    by (rewrite length_take, length_drop; lia).
  rewrite H32. cbn [Nat.eqb negb].
  rewrite ReadUint64_enough by (unfold bin.Remaining; simpl; lia).
  unfold bin.Remaining, bin.advance. cbn [bin.pos bin.data Nat.add].
  fold (declared_hashes buf). fold (declared_hash buf).
  fold (declared_txns buf). fold (body_cursor buf).
  destruct (Z.ltb_spec 10000 (declared_txns buf)); [lia|].
  assert (Hnn : 0 <= declared_txns buf) by apply le_uint_nonneg.
  rewrite Z.mod_small by lia.
  destruct (Z.ltb_spec (Z.of_nat (length buf - 48))
              (declared_txns buf * 100)); [lia|].
  reflexivity.
Qed.

End StrictDecoder.

(** C10. [SolanaEntry.UnmarshalWithDecoder] is strict.  On a buffer whose
    prefix is present and whose transaction count is plausible, a declared
    transaction that fails at any index [k], also [k > 0], makes the
    method return an error (the receiver is left holding the [k]
    transactions appended before the failure); [parseStandardEntry]
    returns those [k > 0] transactions as an entry instead.  When every
    declared transaction decodes the method succeeds whatever the hash
    count is; [parseStandardEntry] rejects a hash count above 1,000,000. *)
Theorem standalone_decoder_is_strict
    (unmarshal : TxDecoder) (en : SolanaEntry) (buf : list byte) :
  (48 <= length buf)%nat ->
  declared_txns buf <= 10000 ->
  100 * declared_txns buf <= Z.of_nat (length buf) - 48 ->
  (forall k txs d1 d2 e,
      Z.of_nat k < declared_txns buf ->
      decode_all unmarshal k (body_cursor buf) = Some (txs, d1) ->
      unmarshal d1 = (d2, inl e) ->
      UnmarshalWithDecoder unmarshal en (bin.NewBinDecoder buf)
      = (mkEntry (declared_hashes buf) (declared_hash buf) txs, d2,
         Some (TransactionFailed (Z.of_nat k + 1) (declared_txns buf)
                 (bin.Position d1) e))
      /\
      ((0 < k)%nat ->
       declared_hashes buf <= 1000000 ->
       parseStandardEntry unmarshal buf
       = inr (mkEntry (declared_hashes buf) (declared_hash buf) txs)))
  /\
  (forall txs d1,
      decode_all unmarshal (Z.to_nat (declared_txns buf)) (body_cursor buf)
      = Some (txs, d1) ->
      UnmarshalWithDecoder unmarshal en (bin.NewBinDecoder buf)
      = (mkEntry (declared_hashes buf) (declared_hash buf) txs, d1, None)
      /\
      (1000000 < declared_hashes buf ->
       parseStandardEntry unmarshal buf
       = inl (UnreasonableHashCount (declared_hashes buf)))).
Proof.
  intros Hlen Ht Hb. split.
  - intros k txs d1 d2 e Hk Hall Hbad. split.
    + rewrite UnmarshalWithDecoder_prefix by assumption.
      rewrite (unmarshal_transactions_stops unmarshal k _ 0
                 (declared_txns buf) (body_cursor buf) [] txs d1 d2 e)
        by (lia || assumption).
      reflexivity.
    + intros Hpos Hh. rewrite parseStandardEntry_prefix by assumption.
      destruct (Z.ltb_spec 1000000 (declared_hashes buf)); [lia|].
      destruct (Z.ltb_spec 10000 (declared_txns buf)); [lia|].
      destruct (Z.ltb_spec (Z.of_nat (length buf) - 48)
                  (100 * declared_txns buf)); [lia|].
      rewrite (read_transactions_stops unmarshal k _ 0 (body_cursor buf) []
                 txs d1 d2 e) by (lia || assumption).
      destruct (Z.eqb_spec (0 + Z.of_nat k) 0); [lia | reflexivity].
  - intros txs d1 Hall. split.
    + rewrite UnmarshalWithDecoder_prefix by assumption.
      rewrite (unmarshal_transactions_all unmarshal _ 0 (declared_txns buf)
                 (body_cursor buf) [] txs d1 Hall).
      reflexivity.
    + intros Hbig. rewrite parseStandardEntry_prefix by assumption.
      destruct (Z.ltb_spec 1000000 (declared_hashes buf));
        [reflexivity | lia].
Qed.

(** The sample entry, whose second transaction is broken, and an entry
    that declares 2^64 - 1 hashes. *)
Lemma standalone_decoder_is_strict_witness :
  (snd (UnmarshalWithDecoder solana.UnmarshalWithDecoder (mkEntry 0 [] [])
          (bin.NewBinDecoder sample_entry_bytes))
   = Some (TransactionFailed 2 2 182 bin.Truncated)
   /\
   parseStandardEntry solana.UnmarshalWithDecoder sample_entry_bytes
   = inr (mkEntry 5 (zeros 32) [sample_tx]))
  /\
  (fst (UnmarshalWithDecoder solana.UnmarshalWithDecoder (mkEntry 0 [] [])
          (bin.NewBinDecoder (whole_entry_bytes (replicate 8 xff))))
   = (mkEntry (2 ^ 64 - 1) (zeros 32) [sample_tx],
      bin.mkDecoder (whole_entry_bytes (replicate 8 xff)) 182)
   /\
   parseStandardEntry solana.UnmarshalWithDecoder
     (whole_entry_bytes (replicate 8 xff))
   = inl (UnreasonableHashCount (2 ^ 64 - 1))).
Proof.
  split.
  - edestruct (proj1 (standalone_decoder_is_strict
                        solana.UnmarshalWithDecoder (mkEntry 0 [] [])
                        sample_entry_bytes
                        ltac:(by_evaluation) ltac:(by_evaluation)
                        ltac:(by_evaluation)) 1%nat)
      as [Hstrict Hlenient].
    + by_evaluation.
    + vm_compute. reflexivity.
    + vm_compute. reflexivity.
    + rewrite Hstrict, Hlenient by by_evaluation.
      split; vm_compute; reflexivity.
  - edestruct (proj2 (standalone_decoder_is_strict
                        solana.UnmarshalWithDecoder (mkEntry 0 [] [])
                        (whole_entry_bytes (replicate 8 xff))
                        ltac:(by_evaluation) ltac:(by_evaluation)
                        ltac:(by_evaluation)))
      as [Hstrict Hproduction].
    + vm_compute. reflexivity.
    + rewrite Hstrict, Hproduction by by_evaluation.
      split; vm_compute; reflexivity.
Defined.

(** ** The address matcher *)

Lemma decide_elem_of_cons_ne {A B : Type} `{EqDecision A}
    (k y : A) (l : list A) (a b : B) :
  k <> y ->
  (if decide (k ∈ y :: l) then a else b) = (if decide (k ∈ l) then a else b).
Proof.
  intros Hne. destruct (decide (k ∈ l)) as [Hin|Hnin].
  - rewrite decide_True by (apply elem_of_cons; auto). reflexivity.
  - rewrite decide_False by (rewrite elem_of_cons; tauto). reflexivity.
Qed.

Lemma decide_elem_of_cons_eq {A B : Type} `{EqDecision A}
    (k : A) (l : list A) (a b : B) :
  (if decide (k ∈ k :: l) then a else b) = a.
Proof. rewrite decide_True by (apply elem_of_cons; auto). reflexivity. Qed.

Section Matcher.

Variable keyString : KeyString.
Variable watch : gmap string string.
Variable tx : solana.Transaction.

(** The loop over the keys, from any map built so far: a key of the
    watch-list overwrites, every other entry of the map is kept. *)
Lemma note_address_fold (keys : list solana.PublicKey) :
  forall acc : gmap string string,
    solana.Signatures tx <> [] ->
    exists found : gmap string string,
      foldl (note_address keyString watch tx) (Done acc) keys = Done found /\
      forall k : string,
        found !! k
        = if decide (k ∈ keyString <$> keys)
          then match watch !! k with Some v => Some v | None => acc !! k end
          else acc !! k.
Proof.
  induction keys as [|key rest IH]; intros acc Hsig.
  - exists acc. split; [reflexivity|]. intros k.
    rewrite decide_False; [reflexivity | apply not_elem_of_nil].
  - cbn [foldl note_address].
    destruct (watch !! keyString key) as [desc|] eqn:Hw.
    + destruct (solana.Signatures tx) as [|sig sigs] eqn:Hs; [congruence|].
      destruct (IH (<[keyString key := desc]> acc)) as (found & Hf & Hlook);
        [congruence|].
      exists found. split; [exact Hf|]. intros k. rewrite Hlook.
      rewrite fmap_cons.
      destruct (decide (k = keyString key)) as [->|Hne].
      * rewrite decide_elem_of_cons_eq, Hw, lookup_insert_eq.
        now destruct (decide _).
      * rewrite decide_elem_of_cons_ne by assumption.
        rewrite lookup_insert_ne by congruence. reflexivity.
    + destruct (IH acc Hsig) as (found & Hf & Hlook).
      exists found. split; [exact Hf|]. intros k. rewrite Hlook.
      rewrite fmap_cons.
      destruct (decide (k = keyString key)) as [->|Hne].
      * rewrite decide_elem_of_cons_eq, Hw. now destruct (decide _).
      * rewrite decide_elem_of_cons_ne by assumption. reflexivity.
Qed.

(** Keys that are not on the watch-list leave the map as it is, and the
    signatures are never looked at. *)
Lemma note_address_fold_unwatched (keys : list solana.PublicKey) :
  forall acc : gmap string string,
    (forall key, key ∈ keys -> watch !! keyString key = None) ->
    foldl (note_address keyString watch tx) (Done acc) keys = Done acc.
Proof.
  induction keys as [|key rest IH]; intros acc Hnone; [reflexivity|].
  cbn [foldl note_address].
  rewrite (Hnone key) by (apply elem_of_cons; auto).
  apply IH. intros key' Hin. apply Hnone. apply elem_of_cons. auto.
Qed.

End Matcher.

(** The matcher where it returns.  For a transaction that carries a
    signature, [containsAddresses] returns the watch-list restricted to
    the keys of the message: a key of the message that is on the
    watch-list is mapped to its label and nothing else is in the result.
    For any transaction, the result is empty when no key of the message
    is on the watch-list. *)
Theorem containsAddresses_exact
    (keyString : KeyString) (watch : gmap string string)
    (message : solana.Message) (tx : solana.Transaction) :
  (solana.Signatures tx <> [] ->
   exists found : gmap string string,
     containsAddresses keyString watch message tx = Done found /\
     forall k : string,
       found !! k
       = if decide (k ∈ key_strings keyString message)
         then watch !! k else None)
  /\
  ((forall key, key ∈ solana.AccountKeys message ->
                watch !! keyString key = None) ->
   containsAddresses keyString watch message tx = Done ∅).
Proof.
  unfold containsAddresses, key_strings. split.
  - intros Hsig.
    destruct (note_address_fold keyString watch tx
                (solana.AccountKeys message) ∅ Hsig) as (found & Hf & Hlook).
    exists found. split; [exact Hf|].
    intros k. rewrite Hlook, lookup_empty.
    case_decide; [|reflexivity]. now destruct (watch !! k).
  - apply note_address_fold_unwatched.
Qed.

(** The example of the specification: keys [A; B; C] and a watch-list
    that holds [B] alone; then the same keys against a watch-list that
    holds none of them. *)
Lemma containsAddresses_exact_witness :
  let message :=
    solana.mkMessage [zeros 32; pump_key; replicate 32 x01]
      (solana.mkHeader 1 0 1) (zeros 32) [] in
  let tx := solana.mkTransaction [zeros 64] message in
  let B := base58 pump_key in
  (exists found : gmap string string,
      containsAddresses base58 {[ B := "token"%string ]} message tx
      = Done found
      /\ found !! B = Some "token"%string
      /\ found !! base58 (zeros 32) = None)
  /\
  containsAddresses base58 {[ "Vote111"%string := "vote"%string ]} message tx
  = Done ∅.
Proof.
  intros message tx B. split.
  - destruct (proj1 (containsAddresses_exact base58
                       {[ B := "token"%string ]} message tx))
      as (found & Hf & Hlook).
    + discriminate.
    + exists found. split; [exact Hf|]. rewrite !Hlook.
      split; vm_compute; reflexivity.
  - apply (proj2 (containsAddresses_exact base58
                    {[ "Vote111"%string := "vote"%string ]} message tx)).
    intros key Hin. cbn [solana.AccountKeys message] in Hin.
    repeat (apply elem_of_cons in Hin as [->|Hin];
            [vm_compute; reflexivity|]).
    now apply elem_of_nil in Hin.
Defined.

(** C6.  The claim asks for the mapping of the watched keys of every
    message.  At a transaction without signatures whose message holds the
    watched key, that mapping would be the key with its label [pump]; the
    code returns no mapping there: on the hit it prints
    [tx.Signatures[0]] and panics on the empty slice. *)
Theorem containsAddresses_unsigned_hit :
  let message :=
    solana.mkMessage [zeros 32; pump_key] (solana.mkHeader 1 0 1)
      (zeros 32) [] in
  let tx := solana.mkTransaction [] message in
  base58 pump_key ∈ key_strings base58 message /\
  targetAddresses !! base58 pump_key = Some "pump"%string /\
  containsAddresses base58 targetAddresses message tx = Panic.
Proof.
  intros message tx. split; [|split].
  - unfold key_strings. cbn [solana.AccountKeys message fmap list_fmap].
    apply elem_of_cons. right. apply elem_of_cons. left. reflexivity.
  - vm_compute. reflexivity.
  - vm_compute. reflexivity.
Qed.

(** ** The access classification *)

(** C7. Row [i] of the table printed for a transaction classifies account
    [i] from the header alone: it is a signer exactly when
    [i < NumRequiredSignatures]; a signer is writable exactly when
    [i < NumRequiredSignatures - NumReadonlySignedAccounts]; a non-signer
    is writable exactly when [i] is below the number of keys minus the two
    read-only counts; every other account is read-only. *)
Theorem access_classification
    (tx : solana.Transaction) (i : nat) (key : solana.PublicKey) :
  let msg := solana.TxMessage tx in
  let hdr := solana.Header msg in
  solana.AccountKeys msg !! i = Some key ->
  exists row,
    account_table tx !! i = Some row /\
    row_index row = i /\
    row_key row = key /\
    (isSigner row = true <->
     Z.of_nat i < solana.NumRequiredSignatures hdr) /\
    (isSigner row = true ->
     (isWritable row = true <->
      Z.of_nat i < solana.NumRequiredSignatures hdr
                   - solana.NumReadonlySignedAccounts hdr)) /\
    (isSigner row = false ->
     (isWritable row = true <->
      Z.of_nat i < Z.of_nat (length (solana.AccountKeys msg))
                   - (solana.NumReadonlySignedAccounts hdr
                      + solana.NumReadonlyUnsignedAccounts hdr))).
Proof.
  intros msg hdr Hkey. exists (account_row tx i key).
  split.
  { unfold account_table. fold msg. now rewrite list_lookup_imap, Hkey. }
  unfold account_row. fold msg. fold hdr.
  destruct (Z.ltb_spec (Z.of_nat i) (solana.NumRequiredSignatures hdr));
    cbn [row_index row_key isSigner isWritable];
    repeat split; try congruence; try lia; intros;
    try (apply Z.ltb_lt; assumption);
    try (apply Z.ltb_lt; lia);
    try match goal with
        | H : (_ <? _) = true |- _ => apply Z.ltb_lt in H; lia
        end.
Qed.

(** A bound that evaluation refutes. *)
Ltac refuted_by_evaluation H :=
  exfalso; apply Z.ltb_lt in H; vm_compute in H; discriminate H.

(** Header (2, 1, 1) over 5 keys gives a writable signer, a read-only
    signer, a writable non-signer and a read-only non-signer. *)
Lemma access_classification_witness :
  (exists r, account_table five_key_tx !! 0%nat = Some r /\
             isSigner r = true /\ isWritable r = true) /\
  (exists r, account_table five_key_tx !! 1%nat = Some r /\
             isSigner r = true /\ isWritable r = false) /\
  (exists r, account_table five_key_tx !! 2%nat = Some r /\
             isSigner r = false /\ isWritable r = true) /\
  (exists r, account_table five_key_tx !! 3%nat = Some r /\
             isSigner r = false /\ isWritable r = false).
Proof.
  repeat split.
  - destruct (access_classification five_key_tx 0 (zeros 32) eq_refl)
      as (r & Hr & _ & _ & Hs & Hw & _).
    assert (Hsigner : isSigner r = true) by (apply Hs; by_evaluation).
    exists r. repeat split; [exact Hr | exact Hsigner |].
    apply (Hw Hsigner). by_evaluation.
  - destruct (access_classification five_key_tx 1 pump_key eq_refl)
      as (r & Hr & _ & _ & Hs & Hw & _).
    assert (Hsigner : isSigner r = true) by (apply Hs; by_evaluation).
    exists r. repeat split; [exact Hr | exact Hsigner |].
    apply not_true_is_false. intros E.
    apply (Hw Hsigner) in E. refuted_by_evaluation E.
  - destruct (access_classification five_key_tx 2 (zeros 32) eq_refl)
      as (r & Hr & _ & _ & Hs & _ & Hn).
    assert (Hplain : isSigner r = false).
    { apply not_true_is_false. intros E.
      apply Hs in E. refuted_by_evaluation E. }
    exists r. repeat split; [exact Hr | exact Hplain |].
    apply (Hn Hplain). by_evaluation.
  - destruct (access_classification five_key_tx 3 (zeros 32) eq_refl)
      as (r & Hr & _ & _ & Hs & _ & Hn).
    assert (Hplain : isSigner r = false).
    { apply not_true_is_false. intros E.
      apply Hs in E. refuted_by_evaluation E. }
    exists r. repeat split; [exact Hr | exact Hplain |].
    apply not_true_is_false. intros E.
    apply (Hn Hplain) in E. refuted_by_evaluation E.
Defined.

(** On the header (2, 1, 1) over 4 keys the table reads: writable signer,
    read-only signer, and two read-only non-signers, since
    [4 - (1 + 1) = 2] leaves no index for a writable non-signer. *)
Example classification_of_four_keys :
  map (fun r => (isSigner r, isWritable r)) (account_table example_tx)
  = [(true, true); (true, false); (false, false); (false, false)].
Proof. vm_compute. reflexivity. Qed.

(** ** The last-slot counter *)

Section Stream.

Variable keyString : KeyString.
Variable watch : gmap string string.
Variable unmarshal : TxDecoder.

Lemma scan_transactions_lastSlot slot count txs :
  forall i st log,
    lastSlot
      (fst (fst (scan_transactions keyString watch slot count i txs st log)))
    = lastSlot st.
Proof.
  induction txs as [|tx rest IH]; intros i st log; simpl; [reflexivity|].
  destruct (containsAddresses keyString watch (solana.TxMessage tx) tx)
    as [found|]; [|reflexivity].
  destruct (0 <? size found)%nat; [|apply IH].
  destruct (printTransactionDetails tx) as [details|]; [|reflexivity].
  rewrite IH. reflexivity.
Qed.

Lemma processEntry_lastSlot st entry :
  lastSlot (fst (fst (processEntry keyString watch unmarshal st entry)))
  = lastSlot st.
Proof.
  unfold processEntry.
  destruct (length (Entries entry) <? 48)%nat; [reflexivity|].
  destruct (parseJitoEntry unmarshal (Entries entry)) as [err|en];
    [reflexivity|].
  pose proof (scan_transactions_lastSlot (Slot entry)
                (length (Transactions en)) (Transactions en) 0
                (add_totalTxs (Z.of_nat (length (Transactions en))) st) [])
    as Hscan.
  destruct (scan_transactions _ _ _ _ _ _ _ _) as [[st2 log] [[]|]];
    exact Hscan.
Qed.

(** A task of the pool never writes the last-slot counter. *)
Lemma run_task_lastSlot st entry :
  lastSlot (run_task keyString watch unmarshal st entry) = lastSlot st.
Proof.
  unfold run_task. pose proof (processEntry_lastSlot st entry) as Hp.
  destruct (processEntry keyString watch unmarshal st entry)
    as [[st' log] [[err|]|]]; exact Hp.
Qed.

End Stream.

(** C8, as the code has it.  The last-slot counter holds the slot of the
    frame received last: receiving a frame stores its slot, whatever the
    counter held, and over any interleaving of received frames and pool
    tasks the counter ends at the slot of the last frame received. *)
Theorem lastSlot_is_latest
    (keyString : KeyString) (watch : gmap string string)
    (unmarshal : TxDecoder) :
  (forall st resp, lastSlot (fst (receive st resp)) = wrap64 (Slot resp))
  /\
  (forall trace st,
      lastSlot (run keyString watch unmarshal st trace)
      = last_received trace (lastSlot st)).
Proof.
  split; [reflexivity|].
  unfold run. induction trace as [|a rest IH]; intros st; [reflexivity|].
  cbn [foldl]. rewrite IH. destruct a as [resp|entry]; cbn [step last_received].
  - reflexivity.
  - now rewrite run_task_lastSlot.
Qed.

(** C8 as stated fails: with 1000 stored, a frame of slot 5 leaves 5 in
    the counter, below its previous value and not the maximum of the two. *)
Lemma lastSlot_not_high_water :
  let st := store_lastSlot 1000 zeroStats in
  let st' := fst (receive st (mkRaw 5 [])) in
  lastSlot st' = 5 /\
  lastSlot st' < lastSlot st /\
  lastSlot st' <> Z.max (lastSlot st) 5.
Proof. vm_compute. repeat split; congruence. Qed.

(** The slot-gap test of the specification: from 1000, slot 1015 warns
    and slot 1005 does not. *)
Example slot_gap_threshold :
  snd (receive (store_lastSlot 1000 zeroStats) (mkRaw 1015 [])) = true /\
  snd (receive (store_lastSlot 1000 zeroStats) (mkRaw 1005 [])) = false.
Proof. vm_compute. split; reflexivity. Qed.

(** ** The snapshot *)

(** C9, as the code guards it.  The snapshot reports only when the
    total-entries counter is positive: otherwise nothing is printed and no
    rate is computed.  In a report the success rate is a quotient by that
    positive counter, and the match rate is a quotient by the
    total-transactions counter whenever that counter is not zero. *)
Theorem snapshot_guards_total (st : Stats) :
  (totalEntries st <= 0 -> printStats st = None)
  /\
  (0 < totalEntries st ->
   exists snap,
     printStats st = Some snap /\
     snap_successRate snap
     = Percent (100 * parsedEntries st) (totalEntries st) /\
     (totalTxs st <> 0 ->
      snap_matchRate snap = Percent (100 * matchedTxs st) (totalTxs st))).
Proof.
  unfold printStats. split; intros Htotal.
  - destruct (Z.ltb_spec 0 (totalEntries st)); [lia | reflexivity].
  - destruct (Z.ltb_spec 0 (totalEntries st)); [|lia].
    eexists. split; [reflexivity|]. cbn [snap_successRate snap_matchRate].
    unfold rate. split.
    + destruct (Z.eqb_spec (totalEntries st) 0); [lia | reflexivity].
    + intros Htxs.
      destruct (Z.eqb_spec (totalTxs st) 0); [contradiction | reflexivity].
Qed.

Lemma snapshot_guards_total_witness :
  printStats zeroStats = None /\
  exists snap,
    printStats (mkStats 4 3 1 10 1 0 0 88) = Some snap /\
    snap_successRate snap = Percent 300 4 /\
    snap_matchRate snap = Percent 100 10.
Proof.
  split.
  - apply (proj1 (snapshot_guards_total zeroStats)). by_evaluation.
  - destruct (proj2 (snapshot_guards_total (mkStats 4 3 1 10 1 0 0 88)))
      as (snap & Hsnap & Hsuccess & Hmatch).
    + by_evaluation.
    + exists snap. split; [exact Hsnap|]. split; [exact Hsuccess|].
      apply Hmatch. discriminate.
Defined.

(** C9 as stated fails: with every counter at zero no report is made, so
    no rate reads 0%. *)
Lemma snapshot_silent_without_entries :
  printStats zeroStats = None /\ ~ tolerates_zero_denominator zeroStats.
Proof.
  split; [reflexivity|]. intros (snap & Hsnap & _). discriminate Hsnap.
Qed.

(** An entry that declares no transaction, headered. *)
Example empty_entry_decodes :
  parseJitoEntry solana.UnmarshalWithDecoder
    (headered (u64_bytes x05 x00 ++ zeros 32 ++ u64_bytes x00 x00))
  = inr (mkEntry 5 (zeros 32) []).
Proof. vm_compute. reflexivity. Qed.

(** After one such frame was received and processed the total-entries
    counter is 1 and the total-transactions counter is 0: the snapshot
    divides zero by zero for the match rate. *)
Example match_rate_of_no_transactions :
  let frame :=
    mkRaw 7 (headered (u64_bytes x05 x00 ++ zeros 32 ++ u64_bytes x00 x00)) in
  let st :=
    run base58 targetAddresses solana.UnmarshalWithDecoder zeroStats
      [Recv frame; RunTask frame] in
  st = mkStats 1 1 0 0 0 0 0 7 /\
  snap_matchRate <$> printStats st = Some NaN.
Proof. vm_compute. split; reflexivity. Qed.

(** ** Further properties of the entry decoders *)

Section DecoderFacts.

Variable unmarshal : TxDecoder.

(** The loop returns the slice it was given, extended by at most one
    transaction per iteration, and by at least one when it starts at
    index 0 with an iteration to run. *)
Lemma read_transactions_length todo :
  forall i d acc txs,
    0 <= i ->
    read_transactions unmarshal todo i d acc = inr txs ->
    (length acc <= length txs <= length acc + todo)%nat /\
    ((0 < todo)%nat -> i = 0 -> (length acc < length txs)%nat).
Proof.
  induction todo as [|todo IH]; intros i d acc txs Hi Hrun; simpl in Hrun.
  - injection Hrun as <-. split; lia.
  - destruct (unmarshal d) as [d' [e|tx]].
    + destruct (Z.eqb_spec i 0); [discriminate|].
      injection Hrun as <-. split; lia.
    + apply IH in Hrun; [|lia]. rewrite length_app in Hrun. simpl in Hrun.
      split; lia.
Qed.

(** A loop of [UnmarshalWithDecoder] that ends without error decoded
    every transaction it was asked for. *)
Lemma unmarshal_transactions_complete todo :
  forall i n d acc d' txs,
    unmarshal_transactions unmarshal todo i n d acc = (d', txs, None) ->
    exists new,
      txs = acc ++ new /\ decode_all unmarshal todo d = Some (new, d').
Proof.
  induction todo as [|todo IH]; intros i n d acc d' txs Hrun; simpl in Hrun.
  - injection Hrun as <- <-. exists []. now rewrite app_nil_r.
  - simpl. destruct (unmarshal d) as [d1 [e|tx]]; [discriminate|].
    apply IH in Hrun as (new & -> & Hall). rewrite Hall.
    exists (tx :: new). now rewrite <- app_assoc.
Qed.

Lemma decode_all_length k :
  forall d txs d',
    decode_all unmarshal k d = Some (txs, d') -> length txs = k.
Proof.
  induction k as [|k IH]; intros d txs d' Hall; simpl in Hall.
  - now injection Hall as <- <-.
  - destruct (unmarshal d) as [d1 [e|tx]]; [discriminate|].
    destruct (decode_all unmarshal k d1) as [[txs' d'']|] eqn:Hrest;
      [|discriminate].
    injection Hall as <- <-. simpl. f_equal. eapply IH, Hrest.
Qed.

(** [UnmarshalWithDecoder] on a buffer that holds the 48 bytes of prefix. *)
Lemma UnmarshalWithDecoder_long en buf :
  (48 <= length buf)%nat ->
  UnmarshalWithDecoder unmarshal en (bin.NewBinDecoder buf)
  = let en2 :=
      mkEntry (declared_hashes buf) (declared_hash buf) (Transactions en) in
    if 10000 <? declared_txns buf
    then (en2, body_cursor buf,
          Some (TxnCountUnreasonable (declared_txns buf)))
    else if Z.of_nat (length buf) - 48 <? 100 * declared_txns buf
    then (en2, body_cursor buf,
          Some (NotEnoughBytes (declared_txns buf)
                  (100 * declared_txns buf) (length buf - 48)))
    else
      let '(d, txs, err) :=
        unmarshal_transactions unmarshal (Z.to_nat (declared_txns buf)) 0
          (declared_txns buf) (body_cursor buf) [] in
      (mkEntry (declared_hashes buf) (declared_hash buf) txs, d, err).
Proof.
  intros Hlen. unfold UnmarshalWithDecoder.
  rewrite ReadUint64_enough by (unfold bin.Remaining; simpl; lia).
  rewrite Read_enough by (unfold bin.Remaining; simpl; lia).
  unfold bin.advance, bin.NewBinDecoder. cbn [bin.pos bin.data Nat.add].
  rewrite drop_0.
  assert (H32 : length (take 32 (drop 8 buf)) = 32%nat)
    by (rewrite length_take, length_drop; lia).
  rewrite H32. cbn [Nat.eqb negb].
  rewrite ReadUint64_enough by (unfold bin.Remaining; simpl; lia).
  unfold bin.Remaining, bin.advance. cbn [bin.pos bin.data Nat.add].
  fold (declared_hashes buf). fold (declared_hash buf).
  fold (declared_txns buf). fold (body_cursor buf). cbn zeta.
  destruct (Z.ltb_spec 10000 (declared_txns buf)); [reflexivity|].
  assert (Hnn : 0 <= declared_txns buf) by apply le_uint_nonneg.
  rewrite Z.mod_small by lia.
  replace (Z.of_nat (length buf - 48)) with (Z.of_nat (length buf) - 48)
    by lia.
  replace (declared_txns buf * 100) with (100 * declared_txns buf) by lia.
  reflexivity.
Qed.

(** Without the 48 bytes of prefix the method returns an error. *)
Lemma UnmarshalWithDecoder_short en buf :
  (length buf < 48)%nat ->
  exists en' d' err,
    UnmarshalWithDecoder unmarshal en (bin.NewBinDecoder buf)
    = (en', d', Some err).
Proof.
  intros Hlen. unfold UnmarshalWithDecoder.
  destruct (le_lt_dec 8 (length buf)) as [H8|H8].
  2:{ unfold bin.ReadUint64.
      rewrite Read_short by (unfold bin.Remaining; simpl; lia). eauto. }
  rewrite ReadUint64_enough by (unfold bin.Remaining; simpl; lia).
  destruct (le_lt_dec 40 (length buf)) as [H40|H40].
  2:{ rewrite Read_short by (unfold bin.Remaining; simpl; lia). eauto. }
  rewrite Read_enough by (unfold bin.Remaining; simpl; lia).
  unfold bin.advance, bin.NewBinDecoder. cbn [bin.pos bin.data Nat.add].
  assert (H32 : length (take 32 (drop 8 buf)) = 32%nat)
    by (rewrite length_take, length_drop; lia).
  rewrite H32. cbn [Nat.eqb negb]. unfold bin.ReadUint64.
  rewrite Read_short by (unfold bin.Remaining; simpl; lia). eauto.
Qed.

End DecoderFacts.

(** X1. An entry returned by [parseStandardEntry] carries the declared
    hash count and hash, its hash count is at most 1,000,000, and it holds
    at most the declared number of transactions, itself at most 10,000 and
    at most a hundredth of the bytes behind the prefix; it holds at least
    one transaction when one was declared. *)
Theorem parseStandardEntry_entry_bounds
    (unmarshal : TxDecoder) (buf : list byte) (e : SolanaEntry) :
  parseStandardEntry unmarshal buf = inr e ->
  (48 <= length buf)%nat /\
  NumHashes e = declared_hashes buf /\
  0 <= NumHashes e <= 1000000 /\
  Hash e = declared_hash buf /\
  length (Hash e) = 32%nat /\
  Z.of_nat (length (Transactions e)) <= declared_txns buf <= 10000 /\
  100 * declared_txns buf <= Z.of_nat (length buf) - 48 /\
  (1 <= declared_txns buf -> (1 <= length (Transactions e))%nat).
Proof.
  intros Hparse.
  destruct (le_lt_dec 48 (length buf)) as [Hlen|Hlen].
  2:{ destruct (parseStandardEntry_short unmarshal buf Hlen) as [err Herr].
      congruence. }
  rewrite parseStandardEntry_prefix in Hparse by assumption.
  destruct (Z.ltb_spec 1000000 (declared_hashes buf)); [discriminate|].
  destruct (Z.ltb_spec 10000 (declared_txns buf)); [discriminate|].
  destruct (Z.ltb_spec (Z.of_nat (length buf) - 48)
              (100 * declared_txns buf)); [discriminate|].
  destruct (read_transactions unmarshal (Z.to_nat (declared_txns buf)) 0
              (body_cursor buf) []) as [err|txs] eqn:Hloop; [discriminate|].
  injection Hparse as <-. cbn [NumHashes Hash Transactions].
  apply read_transactions_length in Hloop as [Hlen_txs Hfirst]; [|lia].
  simpl in Hlen_txs, Hfirst.
  pose proof (le_uint_nonneg (take 8 buf)) as Hnn.
  fold (declared_hashes buf) in Hnn.
  pose proof (le_uint_nonneg (take 8 (drop 40 buf))) as Hnt.
  fold (declared_txns buf) in Hnt.
  repeat apply conj; try lia; try reflexivity.
  unfold declared_hash. rewrite length_take, length_drop. lia.
Qed.

Lemma parseStandardEntry_entry_bounds_witness :
  parseStandardEntry solana.UnmarshalWithDecoder sample_entry_bytes
  = inr (mkEntry 5 (zeros 32) [sample_tx]) /\
  Z.of_nat (length [sample_tx]) <= declared_txns sample_entry_bytes <= 10000.
Proof.
  assert (Hparse :
    parseStandardEntry solana.UnmarshalWithDecoder sample_entry_bytes
    = inr (mkEntry 5 (zeros 32) [sample_tx])) by (vm_compute; reflexivity).
  split; [exact Hparse|].
  apply (parseStandardEntry_entry_bounds _ _ _ Hparse).
Defined.

(** X2. A buffer that ends inside the 48-byte prefix is rejected with the
    error of the field it ends in: the hash count under 8 bytes, the hash
    under 40, the transaction count under 48 (the hash count, when it can
    be read, being within its bound). *)
Theorem parseStandardEntry_truncated_prefix
    (unmarshal : TxDecoder) (buf : list byte) :
  ((length buf < 8)%nat ->
   parseStandardEntry unmarshal buf
   = inl (ReadNumHashesFailed bin.Truncated))
  /\
  ((8 <= length buf < 40)%nat ->
   declared_hashes buf <= 1000000 ->
   parseStandardEntry unmarshal buf = inl (ReadHashFailed bin.Truncated))
  /\
  ((40 <= length buf < 48)%nat ->
   declared_hashes buf <= 1000000 ->
   parseStandardEntry unmarshal buf
   = inl (ReadTxnCountFailed bin.Truncated)).
Proof.
  unfold parseStandardEntry. repeat split.
  - intros Hlen. unfold bin.ReadUint64.
    now rewrite Read_short by (unfold bin.Remaining; simpl; lia).
  - intros Hlen Hh.
    rewrite ReadUint64_enough by (unfold bin.Remaining; simpl; lia).
    cbn [bin.NewBinDecoder bin.pos bin.data]. rewrite drop_0.
    fold (declared_hashes buf).
    destruct (Z.ltb_spec 1000000 (declared_hashes buf)); [lia|].
    now rewrite Read_short by (unfold bin.Remaining; simpl; lia).
  - intros Hlen Hh.
    rewrite ReadUint64_enough by (unfold bin.Remaining; simpl; lia).
    cbn [bin.NewBinDecoder bin.pos bin.data]. rewrite drop_0.
    fold (declared_hashes buf).
    destruct (Z.ltb_spec 1000000 (declared_hashes buf)); [lia|].
    rewrite Read_enough by (unfold bin.Remaining; simpl; lia).
    unfold bin.ReadUint64.
    now rewrite Read_short by (unfold bin.Remaining; simpl; lia).
Qed.

Lemma parseStandardEntry_truncated_prefix_witness :
  parseStandardEntry solana.UnmarshalWithDecoder (zeros 7)
  = inl (ReadNumHashesFailed bin.Truncated) /\
  parseStandardEntry solana.UnmarshalWithDecoder (zeros 39)
  = inl (ReadHashFailed bin.Truncated) /\
  parseStandardEntry solana.UnmarshalWithDecoder (zeros 47)
  = inl (ReadTxnCountFailed bin.Truncated).
Proof.
  pose proof (parseStandardEntry_truncated_prefix
                solana.UnmarshalWithDecoder (zeros 7)) as (H7 & _ & _).
  pose proof (parseStandardEntry_truncated_prefix
                solana.UnmarshalWithDecoder (zeros 39)) as (_ & H39 & _).
  pose proof (parseStandardEntry_truncated_prefix
                solana.UnmarshalWithDecoder (zeros 47)) as (_ & _ & H47).
  split; [|split].
  - apply H7. by_evaluation.
  - apply H39; [split|]; by_evaluation.
  - apply H47; [split|]; by_evaluation.
Defined.

(** X3. [processEntry] lets payloads of 48 to 55 bytes through its size
    test, but the headered decode needs 8 bytes of header and 48 of
    prefix: every payload under 56 bytes makes [processEntry] return an
    error, with the counters as they were and nothing reported. *)
Theorem processEntry_needs_56_bytes
    (keyString : KeyString) (watch : gmap string string)
    (unmarshal : TxDecoder) (st : Stats) (entry : RawEntry) :
  (length (Entries entry) < 56)%nat ->
  exists err,
    processEntry keyString watch unmarshal st entry
    = (st, [], Done (Some err)) /\
    ((48 <= length (Entries entry))%nat ->
     exists cause, err = AllParsersFailed cause).
Proof.
  intros Hlen. unfold processEntry.
  destruct (Nat.ltb_spec (length (Entries entry)) 48) as [H48|H48].
  { eexists. split; [reflexivity|]. lia. }
  rewrite parseJitoEntry_long by lia.
  destruct (parseStandardEntry_short unmarshal (drop 8 (Entries entry)))
    as [cause Hcause].
  { rewrite length_drop. lia. }
  rewrite Hcause. eexists. split; [reflexivity|]. eauto.
Qed.

Lemma processEntry_needs_56_bytes_witness :
  exists err,
    processEntry base58 targetAddresses solana.UnmarshalWithDecoder
      zeroStats (mkRaw 7 (zeros 55))
    = (zeroStats, [], Done (Some err)).
Proof.
  destruct (processEntry_needs_56_bytes base58 targetAddresses
              solana.UnmarshalWithDecoder zeroStats (mkRaw 7 (zeros 55)))
    as (err & Herr & _).
  - by_evaluation.
  - exists err. exact Herr.
Defined.

(** X4. When the prefix of the headered buffer passes its checks and
    every declared transaction decodes, [parseJitoEntry] returns the
    entry with all of them, in order. *)
Theorem parseJitoEntry_complete
    (unmarshal : TxDecoder) (buf : list byte)
    (txs : list solana.Transaction) (d : bin.Decoder) :
  let body := drop 8 buf in
  well_formed_prefix body ->
  decode_all unmarshal (Z.to_nat (declared_txns body)) (body_cursor body)
  = Some (txs, d) ->
  parseJitoEntry unmarshal buf
  = inr (mkEntry (declared_hashes body) (declared_hash body) txs).
Proof.
  intros body (Hlen & Hh & Ht & Hb) Hall.
  assert (H16 : (16 <= length buf)%nat).
  { subst body. rewrite length_drop in Hlen. lia. }
  rewrite parseJitoEntry_long by assumption. fold body.
  rewrite parseStandardEntry_prefix by assumption.
  destruct (Z.ltb_spec 1000000 (declared_hashes body)); [lia|].
  destruct (Z.ltb_spec 10000 (declared_txns body)); [lia|].
  destruct (Z.ltb_spec (Z.of_nat (length body) - 48)
              (100 * declared_txns body)); [lia|].
  now rewrite (read_transactions_all unmarshal _ 0 (body_cursor body) []
                 txs d Hall).
Qed.

Lemma parseJitoEntry_complete_witness :
  parseJitoEntry solana.UnmarshalWithDecoder
    (headered (whole_entry_bytes (u64_bytes x05 x00)))
  = inr (mkEntry 5 (zeros 32) [sample_tx]).
Proof.
  erewrite (parseJitoEntry_complete solana.UnmarshalWithDecoder
              (headered (whole_entry_bytes (u64_bytes x05 x00)))).
  - vm_compute. reflexivity.
  - prefix_by_evaluation.
  - vm_compute. reflexivity.
Defined.

(** X5. Whenever [SolanaEntry.UnmarshalWithDecoder] succeeds on a buffer
    whose hash count is at most 1,000,000, [parseStandardEntry] succeeds
    on it with the same entry. *)
Theorem strict_success_is_production_success
    (unmarshal : TxDecoder) (en en' : SolanaEntry) (buf : list byte)
    (d' : bin.Decoder) :
  UnmarshalWithDecoder unmarshal en (bin.NewBinDecoder buf) = (en', d', None) ->
  declared_hashes buf <= 1000000 ->
  parseStandardEntry unmarshal buf = inr en'.
Proof.
  intros Hstrict Hh.
  destruct (le_lt_dec 48 (length buf)) as [Hlen|Hlen].
  2:{ destruct (UnmarshalWithDecoder_short unmarshal en buf Hlen)
        as (en1 & d1 & err & Herr). congruence. }
  rewrite UnmarshalWithDecoder_long in Hstrict by assumption.
  cbn zeta in Hstrict.
  rewrite parseStandardEntry_prefix by assumption.
  destruct (Z.ltb_spec 1000000 (declared_hashes buf)); [lia|].
  destruct (Z.ltb_spec 10000 (declared_txns buf)); [discriminate|].
  destruct (Z.ltb_spec (Z.of_nat (length buf) - 48)
              (100 * declared_txns buf)); [discriminate|].
  destruct (unmarshal_transactions unmarshal (Z.to_nat (declared_txns buf))
              0 (declared_txns buf) (body_cursor buf) [])
    as [[d1 txs] err] eqn:Hloop.
  injection Hstrict as <- <- ->.
  apply unmarshal_transactions_complete in Hloop as (new & -> & Hall).
  now rewrite (read_transactions_all unmarshal _ 0 (body_cursor buf) []
                 new d1 Hall).
Qed.

Lemma strict_success_is_production_success_witness :
  parseStandardEntry solana.UnmarshalWithDecoder
    (whole_entry_bytes (u64_bytes x05 x00))
  = inr (mkEntry 5 (zeros 32) [sample_tx]).
Proof.
  eapply (strict_success_is_production_success solana.UnmarshalWithDecoder
            (mkEntry 0 [] [])).
  - vm_compute. reflexivity.
  - by_evaluation.
Defined.

(** X6. [SolanaEntry.UnmarshalWithDecoder] is all or nothing: when it
    returns no error the buffer held the whole prefix, the receiver holds
    the declared hash count and hash, and its transactions are exactly
    the declared number of transactions, each decoded in turn from the
    cursor behind the prefix, which ends where the last one ended. *)
Theorem strict_success_is_complete
    (unmarshal : TxDecoder) (en en' : SolanaEntry) (buf : list byte)
    (d' : bin.Decoder) :
  UnmarshalWithDecoder unmarshal en (bin.NewBinDecoder buf) = (en', d', None) ->
  (48 <= length buf)%nat /\
  NumHashes en' = declared_hashes buf /\
  Hash en' = declared_hash buf /\
  Z.of_nat (length (Transactions en')) = declared_txns buf /\
  decode_all unmarshal (Z.to_nat (declared_txns buf)) (body_cursor buf)
  = Some (Transactions en', d').
Proof.
  intros Hstrict.
  destruct (le_lt_dec 48 (length buf)) as [Hlen|Hlen].
  2:{ destruct (UnmarshalWithDecoder_short unmarshal en buf Hlen)
        as (en1 & d1 & err & Herr). congruence. }
  rewrite UnmarshalWithDecoder_long in Hstrict by assumption.
  cbn zeta in Hstrict.
  destruct (Z.ltb_spec 10000 (declared_txns buf)); [discriminate|].
  destruct (Z.ltb_spec (Z.of_nat (length buf) - 48)
              (100 * declared_txns buf)); [discriminate|].
  destruct (unmarshal_transactions unmarshal (Z.to_nat (declared_txns buf))
              0 (declared_txns buf) (body_cursor buf) [])
    as [[d1 txs] err] eqn:Hloop.
  injection Hstrict as <- <- ->. cbn [NumHashes Hash Transactions].
  apply unmarshal_transactions_complete in Hloop as (new & -> & Hall).
  simpl. pose proof (decode_all_length unmarshal _ _ _ _ Hall) as Hn.
  pose proof (le_uint_nonneg (take 8 (drop 40 buf))) as Hnn.
  fold (declared_txns buf) in Hnn.
  repeat apply conj; try assumption; try reflexivity. lia.
Qed.

Lemma strict_success_is_complete_witness :
  Z.of_nat (length [sample_tx])
  = declared_txns (whole_entry_bytes (replicate 8 xff)).
Proof.
  apply (strict_success_is_complete solana.UnmarshalWithDecoder
           (mkEntry 0 [] [])
           (mkEntry (2 ^ 64 - 1) (zeros 32) [sample_tx])
           (whole_entry_bytes (replicate 8 xff))
           (bin.mkDecoder (whole_entry_bytes (replicate 8 xff)) 182)).
  vm_compute. reflexivity.
Defined.

(** ** The big-endian decoder *)

Section BigEndian.

Variable unmarshal : TxDecoder.

Lemma ReadUint64BE_enough d :
  (8 <= bin.Remaining d)%nat ->
  ReadUint64BE d
  = (bin.advance 8 d,
     inr (le_uint (rev (take 8 (drop (bin.pos d) (bin.data d)))))).
Proof. intros Hn. unfold ReadUint64BE. now rewrite Read_enough. Qed.

Lemma big_endian_transactions_stops k :
  forall todo i d acc txs d1 d2 e,
    (k < todo)%nat ->
    0 <= i ->
    decode_all unmarshal k d = Some (txs, d1) ->
    unmarshal d1 = (d2, inl e) ->
    big_endian_transactions unmarshal todo i d acc
    = (d2, acc ++ txs,
       if 0 <? i + Z.of_nat k then None else Some (BEFirstTransaction e)).
Proof.
  induction k as [|k IH]; intros todo i d acc txs d1 d2 e Hk Hi Hall Hbad.
  - simpl in Hall. injection Hall as Htxs Hd. subst txs d1.
    destruct todo as [|todo]; [lia|]. simpl. rewrite Hbad.
    replace (i + Z.of_nat 0) with i by lia. rewrite app_nil_r.
    now destruct (0 <? i).
  - simpl in Hall.
    destruct (unmarshal d) as [d' [err|tx]] eqn:Hfirst; [discriminate|].
    destruct (decode_all unmarshal k d') as [[txs' d'']|] eqn:Hrest;
      [|discriminate].
    injection Hall as Htxs Hd. subst txs d''.
    destruct todo as [|todo]; [lia|]. simpl. rewrite Hfirst.
    rewrite (IH todo (i + 1) d' (acc ++ [tx]) txs' d1 d2 e)
      by (lia || assumption).
    rewrite <- app_assoc. simpl.
    replace (i + 1 + Z.of_nat k) with (i + Z.of_nat (S k)) by lia.
    reflexivity.
Qed.

Lemma big_endian_transactions_all todo :
  forall i d acc txs d1,
    decode_all unmarshal todo d = Some (txs, d1) ->
    big_endian_transactions unmarshal todo i d acc = (d1, acc ++ txs, None).
Proof.
  induction todo as [|todo IH]; intros i d acc txs d1 Hall.
  - simpl in Hall. injection Hall as Htxs Hd. subst txs d1. simpl.
    now rewrite app_nil_r.
  - simpl in Hall. simpl.
    destruct (unmarshal d) as [d' [err|tx]] eqn:Hfirst; [discriminate|].
    destruct (decode_all unmarshal todo d') as [[txs' d'']|] eqn:Hrest;
      [|discriminate].
    injection Hall as Htxs Hd. subst txs d''.
    rewrite (IH (i + 1) d' (acc ++ [tx]) txs' d1 Hrest).
    now rewrite <- app_assoc.
Qed.

(** With the prefix present and both counts, read big-endian, within
    their checks, the method is its transaction loop. *)
Lemma UnmarshalWithBigEndian_prefix en buf :
  (48 <= length buf)%nat ->
  be_declared_hashes buf <= 1000000 ->
  be_declared_txns buf <= 10000 ->
  100 * be_declared_txns buf <= Z.of_nat (length buf) - 48 ->
  UnmarshalWithBigEndian unmarshal en (bin.NewBinDecoder buf)
  = let '(d, txs, err) :=
      big_endian_transactions unmarshal (Z.to_nat (be_declared_txns buf)) 0
        (body_cursor buf) [] in
    (mkEntry (be_declared_hashes buf) (declared_hash buf) txs, d, err).
Proof.
  intros Hlen Hh Ht Hb. unfold UnmarshalWithBigEndian.
  rewrite ReadUint64BE_enough by (unfold bin.Remaining; simpl; lia).
  cbn [bin.NewBinDecoder bin.pos bin.data]. rewrite drop_0.
  fold (be_declared_hashes buf).
  destruct (Z.ltb_spec 1000000 (be_declared_hashes buf)); [lia|].
  rewrite Read_enough by (unfold bin.Remaining; simpl; lia).
  rewrite ReadUint64BE_enough by (unfold bin.Remaining; simpl; lia).
  unfold bin.Remaining, bin.advance, bin.NewBinDecoder.
  cbn [bin.pos bin.data Nat.add].
  fold (declared_hash buf). fold (be_declared_txns buf).
  fold (body_cursor buf).
  destruct (Z.ltb_spec 10000 (be_declared_txns buf)); [lia|].
  assert (Hnn : 0 <= be_declared_txns buf) by apply le_uint_nonneg.
  rewrite Z.mod_small by lia.
  destruct (Z.ltb_spec (Z.of_nat (length buf - 48))
              (be_declared_txns buf * 100)); [lia|].
  reflexivity.
Qed.

End BigEndian.

(** X7. [SolanaEntry.UnmarshalWithBigEndian] reads both counts most
    significant byte first and then follows the policy of the production
    decoder.  A hash count above 1,000,000 is an error.  With the prefix
    within its checks: a first transaction that fails is an error and the
    receiver holds no transaction; a failure after [k > 0] decoded
    transactions returns no error and leaves exactly those [k] in the
    receiver; when all decode the receiver holds all of them. *)
Theorem big_endian_policy
    (unmarshal : TxDecoder) (en : SolanaEntry) (buf : list byte) :
  (48 <= length buf)%nat ->
  (1000000 < be_declared_hashes buf ->
   snd (UnmarshalWithBigEndian unmarshal en (bin.NewBinDecoder buf))
   = Some (BEHashCountUnreasonable (be_declared_hashes buf)))
  /\
  (be_declared_hashes buf <= 1000000 ->
   be_declared_txns buf <= 10000 ->
   100 * be_declared_txns buf <= Z.of_nat (length buf) - 48 ->
   (forall d e,
       1 <= be_declared_txns buf ->
       unmarshal (body_cursor buf) = (d, inl e) ->
       UnmarshalWithBigEndian unmarshal en (bin.NewBinDecoder buf)
       = (mkEntry (be_declared_hashes buf) (declared_hash buf) [], d,
          Some (BEFirstTransaction e)))
   /\
   (forall k txs d1 d2 e,
       (0 < k)%nat ->
       Z.of_nat k < be_declared_txns buf ->
       decode_all unmarshal k (body_cursor buf) = Some (txs, d1) ->
       unmarshal d1 = (d2, inl e) ->
       UnmarshalWithBigEndian unmarshal en (bin.NewBinDecoder buf)
       = (mkEntry (be_declared_hashes buf) (declared_hash buf) txs, d2,
          None))
   /\
   (forall txs d1,
       decode_all unmarshal (Z.to_nat (be_declared_txns buf))
         (body_cursor buf) = Some (txs, d1) ->
       UnmarshalWithBigEndian unmarshal en (bin.NewBinDecoder buf)
       = (mkEntry (be_declared_hashes buf) (declared_hash buf) txs, d1,
          None))).
Proof.
  intros Hlen. split.
  - intros Hbig. unfold UnmarshalWithBigEndian.
    rewrite ReadUint64BE_enough by (unfold bin.Remaining; simpl; lia).
    cbn [bin.NewBinDecoder bin.pos bin.data]. rewrite drop_0.
    fold (be_declared_hashes buf).
    destruct (Z.ltb_spec 1000000 (be_declared_hashes buf));
      [reflexivity | lia].
  - intros Hh Ht Hb.
    pose proof (UnmarshalWithBigEndian_prefix unmarshal en buf Hlen Hh Ht Hb)
      as Hprefix.
    split; [|split].
    + intros d e Hone Hbad. rewrite Hprefix.
      rewrite (big_endian_transactions_stops unmarshal 0 _ 0
                 (body_cursor buf) [] [] (body_cursor buf) d e)
        by (lia || reflexivity || assumption).
      reflexivity.
    + intros k txs d1 d2 e Hk Hdecl Hall Hbad. rewrite Hprefix.
      rewrite (big_endian_transactions_stops unmarshal k _ 0
                 (body_cursor buf) [] txs d1 d2 e) by (lia || assumption).
      destruct (Z.ltb_spec 0 (0 + Z.of_nat k)); [reflexivity | lia].
    + intros txs d1 Hall. rewrite Hprefix.
      now rewrite (big_endian_transactions_all unmarshal _ 0
                     (body_cursor buf) [] txs d1 Hall).
Qed.

(** ** Further properties of the counters *)

Lemma wrap64_small z : int64 z -> wrap64 z = z.
Proof. unfold int64, wrap64. intros Hz. rewrite Z.mod_small; lia. Qed.

Lemma wrap64_int64 z : int64 (wrap64 z).
Proof.
  unfold int64, wrap64.
  pose proof (Z.mod_pos_bound (z + 2 ^ 63) (2 ^ 64) ltac:(lia)). lia.
Qed.

Lemma wrap64_add_l a b : wrap64 (wrap64 a + b) = wrap64 (a + b).
Proof.
  unfold wrap64. f_equal.
  replace ((a + 2 ^ 63) mod 2 ^ 64 - 2 ^ 63 + b + 2 ^ 63)
    with ((a + 2 ^ 63) mod 2 ^ 64 + b) by lia.
  rewrite Zplus_mod_idemp_l. f_equal. lia.
Qed.

Section Accounting.

Variable keyString : KeyString.
Variable watch : gmap string string.
Variable unmarshal : TxDecoder.

(** The transaction loop of [processEntry] writes the
    matched-transactions counter alone. *)
Lemma scan_transactions_frame slot count txs :
  forall i st log,
    let st' :=
      fst (fst (scan_transactions keyString watch slot count i txs st log)) in
    totalEntries st' = totalEntries st /\
    parsedEntries st' = parsedEntries st /\
    failedEntries st' = failedEntries st /\
    totalTxs st' = totalTxs st /\
    parseErrors st' = parseErrors st /\
    reconnectCount st' = reconnectCount st.
Proof.
  induction txs as [|tx rest IH]; intros i st log; simpl; [auto 10|].
  destruct (containsAddresses keyString watch (solana.TxMessage tx) tx)
    as [found|]; [|simpl; auto 10].
  destruct (0 <? size found)%nat; [|apply IH].
  destruct (printTransactionDetails tx) as [details|]; [|simpl; auto 10].
  apply (IH (S i) (add_matchedTxs 1 st)).
Qed.

(** It counts one match per transaction with a watched address and
    appends one report for each of them, unless a transaction makes it
    panic. *)
Lemma scan_transactions_effect slot count txs :
  forall i st log st' log' r,
    scan_transactions keyString watch slot count i txs st log
    = (st', log', r) ->
    int64 (matchedTxs st) ->
    exists new m,
      log' = log ++ new /\
      (length new <= m <= length txs)%nat /\
      (r = Done tt -> m = length new) /\
      matchedTxs st' = wrap64 (matchedTxs st + Z.of_nat m) /\
      Forall (fun rp =>
                rep_slot rp = slot /\ rep_count rp = count /\
                (i < rep_tx rp <= i + length txs)%nat /\
                (0 < size (rep_addresses rp))%nat) new.
Proof.
  induction txs as [|tx rest IH]; intros i st log st' log' r Hscan Hrange;
    simpl in Hscan.
  - injection Hscan as <- <- <-. exists [], 0%nat.
    rewrite app_nil_r, Z.add_0_r, wrap64_small by assumption.
    split; [reflexivity|]. split; [simpl; lia|]. auto.
  - destruct (containsAddresses keyString watch (solana.TxMessage tx) tx)
      as [found|].
    2:{ injection Hscan as <- <- <-. exists [], 0%nat.
        rewrite app_nil_r, Z.add_0_r, wrap64_small by assumption.
        split; [reflexivity|]. split; [simpl; lia|].
        split; [discriminate|]. auto. }
    destruct (Nat.ltb_spec 0 (size found)) as [Hhit|Hmiss].
    + destruct (printTransactionDetails tx) as [details|].
      * apply IH in Hscan
          as (new & m & -> & Hm & Hdone & Hmatched & Hreports);
          [|apply wrap64_int64].
        exists (mkReport slot (S i) count found details :: new), (S m).
        cbn [add_matchedTxs matchedTxs] in Hmatched.
        unfold add64 in Hmatched. rewrite wrap64_add_l in Hmatched.
        split; [now rewrite <- app_assoc|].
        split; [simpl; lia|].
        split; [intros Hr; simpl; f_equal; auto|].
        split; [rewrite Hmatched; f_equal; lia|].
        constructor.
        -- cbn. repeat apply conj; auto; lia.
        -- eapply Forall_impl; [exact Hreports|].
           cbn. intros rp (? & ? & ? & ?). repeat apply conj; auto; lia.
      * injection Hscan as <- <- <-. exists [], 1%nat.
        cbn [add_matchedTxs matchedTxs]. rewrite app_nil_r.
        split; [reflexivity|]. split; [simpl; lia|].
        split; [discriminate|]. split; [reflexivity|]. constructor.
    + apply IH in Hscan
        as (new & m & -> & Hm & Hdone & Hmatched & Hreports); [|assumption].
      exists new, m.
      split; [reflexivity|]. split; [simpl; lia|].
      split; [assumption|]. split; [assumption|].
      eapply Forall_impl; [exact Hreports|].
      cbn. intros rp (? & ? & ? & ?). repeat apply conj; auto; lia.
Qed.

(** [processEntry] writes the two transaction counters only. *)
Lemma processEntry_frame st entry :
  let st' := fst (fst (processEntry keyString watch unmarshal st entry)) in
  totalEntries st' = totalEntries st /\
  parsedEntries st' = parsedEntries st /\
  failedEntries st' = failedEntries st /\
  parseErrors st' = parseErrors st /\
  reconnectCount st' = reconnectCount st.
Proof.
  unfold processEntry.
  destruct (length (Entries entry) <? 48)%nat; [cbn; auto|].
  destruct (parseJitoEntry unmarshal (Entries entry)) as [err|en];
    [cbn; auto|].
  pose proof (scan_transactions_frame (Slot entry)
                (length (Transactions en)) (Transactions en) 0
                (add_totalTxs (Z.of_nat (length (Transactions en))) st) [])
    as Hframe.
  cbn zeta in Hframe.
  destruct (scan_transactions _ _ _ _ _ _ _ _) as [[st2 log] [[]|]];
    cbn in *; intuition congruence.
Qed.

(** A task writes neither the total-entries counter nor the reconnect
    counter. *)
Lemma run_task_frame st entry :
  totalEntries (run_task keyString watch unmarshal st entry)
  = totalEntries st /\
  reconnectCount (run_task keyString watch unmarshal st entry)
  = reconnectCount st.
Proof.
  unfold run_task. pose proof (processEntry_frame st entry) as Hp.
  cbn zeta in Hp.
  destruct (processEntry keyString watch unmarshal st entry)
    as [[st' log] [[err|]|]]; cbn in *; intuition congruence.
Qed.

End Accounting.

Lemma big_endian_policy_witness :
  snd (UnmarshalWithBigEndian solana.UnmarshalWithDecoder (mkEntry 0 [] [])
         (bin.NewBinDecoder (whole_entry_bytes (u64_bytes x05 x00))))
  = Some (BEHashCountUnreasonable (5 * 2 ^ 56))
  /\
  snd (UnmarshalWithBigEndian solana.UnmarshalWithDecoder (mkEntry 0 [] [])
         (bin.NewBinDecoder (be_entry_bytes x01 (broken_tx_bytes 99))))
  = Some (BEFirstTransaction bin.Truncated)
  /\
  (let r :=
     UnmarshalWithBigEndian solana.UnmarshalWithDecoder (mkEntry 0 [] [])
       (bin.NewBinDecoder
          (be_entry_bytes x02 (sample_tx_bytes ++ broken_tx_bytes 65))) in
   (fst (fst r), snd r))
  = (mkEntry 5 (zeros 32) [sample_tx], None).
Proof.
  split; [|split].
  - rewrite (proj1 (big_endian_policy solana.UnmarshalWithDecoder
                      (mkEntry 0 [] [])
                      (whole_entry_bytes (u64_bytes x05 x00))
                      ltac:(by_evaluation))).
    + vm_compute. reflexivity.
    + by_evaluation.
  - destruct (proj2 (big_endian_policy solana.UnmarshalWithDecoder
                       (mkEntry 0 [] [])
                       (be_entry_bytes x01 (broken_tx_bytes 99))
                       ltac:(by_evaluation))
                ltac:(by_evaluation) ltac:(by_evaluation)
                ltac:(by_evaluation)) as (Hfirst & _ & _).
    erewrite Hfirst.
    + vm_compute. reflexivity.
    + by_evaluation.
    + vm_compute. reflexivity.
  - destruct (proj2 (big_endian_policy solana.UnmarshalWithDecoder
                       (mkEntry 0 [] [])
                       (be_entry_bytes x02
                          (sample_tx_bytes ++ broken_tx_bytes 65))
                       ltac:(by_evaluation))
                ltac:(by_evaluation) ltac:(by_evaluation)
                ltac:(by_evaluation)) as (_ & Hlater & _).
    erewrite (Hlater 1%nat).
    + vm_compute. reflexivity.
    + by_evaluation.
    + by_evaluation.
    + vm_compute. reflexivity.
    + vm_compute. reflexivity.
Defined.

(** X8. An error returned by [processEntry] comes before any counter is
    written: the counters are as they were, nothing was reported, and the
    error is either the too-small error of a payload under 48 bytes or the
    wrapped error of the headered decode. *)
Theorem processEntry_error_is_clean
    (keyString : KeyString) (watch : gmap string string)
    (unmarshal : TxDecoder) (st st' : Stats) (entry : RawEntry)
    (log : list MatchReport) (err : EntryError) :
  processEntry keyString watch unmarshal st entry
  = (st', log, Done (Some err)) ->
  st' = st /\ log = [] /\
  ((length (Entries entry) < 48)%nat /\
   err = TooSmall (length (Entries entry))
   \/
   (48 <= length (Entries entry))%nat /\
   exists cause,
     parseJitoEntry unmarshal (Entries entry) = inl cause /\
     err = AllParsersFailed cause).
Proof.
  unfold processEntry. intros Hrun.
  destruct (Nat.ltb_spec (length (Entries entry)) 48) as [Hlen|Hlen].
  { injection Hrun as <- <- <-. auto. }
  destruct (parseJitoEntry unmarshal (Entries entry)) as [cause|en].
  { injection Hrun as <- <- <-. split; [reflexivity|].
    split; [reflexivity|]. right. eauto. }
  destruct (scan_transactions _ _ _ _ _ _ _ _) as [[st2 log2] [[]|]];
    discriminate.
Qed.

Lemma processEntry_error_is_clean_witness :
  exists cause,
    parseJitoEntry solana.UnmarshalWithDecoder
      (headered broken_entry_bytes) = inl cause.
Proof.
  destruct (processEntry_error_is_clean base58 targetAddresses
              solana.UnmarshalWithDecoder zeroStats zeroStats
              (mkRaw 7 (headered broken_entry_bytes)) []
              (AllParsersFailed (FirstTransactionCorrupt bin.Truncated)))
    as (_ & _ & [[Hshort _] | [_ (cause & Hcause & _)]]).
  - vm_compute. reflexivity.
  - exfalso. apply Nat.ltb_lt in Hshort. vm_compute in Hshort.
    discriminate Hshort.
  - exists cause. exact Hcause.
Defined.

(** X9. When [processEntry] returns without error, the payload decoded to
    an entry, the total-transactions counter grew by the number of its
    transactions, the matched-transactions counter grew by the number of
    reports, there is at most one report per transaction, and no other
    counter moved. *)
Theorem processEntry_success_accounting
    (keyString : KeyString) (watch : gmap string string)
    (unmarshal : TxDecoder) (st st' : Stats) (entry : RawEntry)
    (log : list MatchReport) :
  int64 (matchedTxs st) ->
  processEntry keyString watch unmarshal st entry = (st', log, Done None) ->
  exists en,
    parseJitoEntry unmarshal (Entries entry) = inr en /\
    totalTxs st'
    = add64 (totalTxs st) (Z.of_nat (length (Transactions en))) /\
    matchedTxs st' = wrap64 (matchedTxs st + Z.of_nat (length log)) /\
    (length log <= length (Transactions en))%nat /\
    totalEntries st' = totalEntries st /\
    parsedEntries st' = parsedEntries st /\
    failedEntries st' = failedEntries st /\
    parseErrors st' = parseErrors st /\
    reconnectCount st' = reconnectCount st /\
    lastSlot st' = lastSlot st.
Proof.
  intros Hrange Hrun.
  pose proof (processEntry_frame keyString watch unmarshal st entry) as Hframe.
  pose proof (processEntry_lastSlot keyString watch unmarshal st entry)
    as Hslot.
  rewrite Hrun in Hframe, Hslot. cbn in Hframe, Hslot.
  destruct Hframe as (? & ? & ? & ? & ?).
  unfold processEntry in Hrun.
  destruct (length (Entries entry) <? 48)%nat; [discriminate|].
  destruct (parseJitoEntry unmarshal (Entries entry)) as [cause|en];
    [discriminate|].
  exists en. split; [reflexivity|].
  destruct (scan_transactions keyString watch (Slot entry)
              (length (Transactions en)) 0 (Transactions en)
              (add_totalTxs (Z.of_nat (length (Transactions en))) st) [])
    as [[st2 log2] r] eqn:Hscan.
  pose proof (scan_transactions_frame keyString watch (Slot entry)
                (length (Transactions en)) (Transactions en) 0
                (add_totalTxs (Z.of_nat (length (Transactions en))) st) [])
    as Hscan_frame.
  rewrite Hscan in Hscan_frame. cbn in Hscan_frame.
  destruct Hscan_frame as (_ & _ & _ & Htxs & _).
  apply scan_transactions_effect in Hscan
    as (new & m & Hlog & Hm & Hdone & Hmatched & _); [|exact Hrange].
  destruct r as [[]|]; [|discriminate].
  injection Hrun as <- <-. rewrite (Hdone eq_refl) in *.
  simpl in Hlog. subst log2.
  repeat apply conj; auto; lia.
Qed.

Lemma processEntry_success_accounting_witness :
  let res :=
    processEntry base58 targetAddresses solana.UnmarshalWithDecoder
      zeroStats (mkRaw 7 (headered sample_entry_bytes)) in
  snd res = Done None /\
  totalTxs (fst (fst res)) = 1 /\
  matchedTxs (fst (fst res)) = 1 /\
  length (snd (fst res)) = 1%nat.
Proof.
  intros res.
  assert (Hrun : processEntry base58 targetAddresses
                   solana.UnmarshalWithDecoder zeroStats
                   (mkRaw 7 (headered sample_entry_bytes))
                 = (fst (fst res), snd (fst res), Done None))
    by (vm_compute; reflexivity).
  assert (Hrange : int64 (matchedTxs zeroStats))
    by (unfold int64; split; by_evaluation).
  destruct (processEntry_success_accounting _ _ _ _ _ _ _ Hrange Hrun)
    as (en & Hen & Htotal & Hmatched & _).
  assert (Hparse :
    parseJitoEntry solana.UnmarshalWithDecoder
      (Entries (mkRaw 7 (headered sample_entry_bytes)))
    = inr (mkEntry 5 (zeros 32) [sample_tx])) by (vm_compute; reflexivity).
  rewrite Hparse in Hen. injection Hen as <-.
  split; [vm_compute; reflexivity|].
  split; [rewrite Htotal; vm_compute; reflexivity|].
  split; [rewrite Hmatched|]; vm_compute; reflexivity.
Defined.

(** X10. Every report of [processEntry] names the slot of the frame, the
    number of transactions of the decoded entry, a 1-based transaction
    index within that number, and at least one matched address. *)
Theorem processEntry_reports_well_formed
    (keyString : KeyString) (watch : gmap string string)
    (unmarshal : TxDecoder) (st st' : Stats) (entry : RawEntry)
    (log : list MatchReport) (r : Run (option EntryError))
    (en : SolanaEntry) (rp : MatchReport) :
  int64 (matchedTxs st) ->
  processEntry keyString watch unmarshal st entry = (st', log, r) ->
  parseJitoEntry unmarshal (Entries entry) = inr en ->
  rp ∈ log ->
  rep_slot rp = Slot entry /\
  rep_count rp = length (Transactions en) /\
  (1 <= rep_tx rp <= length (Transactions en))%nat /\
  (0 < size (rep_addresses rp))%nat.
Proof.
  intros Hrange Hrun Hparse Hin. unfold processEntry in Hrun.
  destruct (length (Entries entry) <? 48)%nat.
  { injection Hrun as <- <- <-. now apply elem_of_nil in Hin. }
  rewrite Hparse in Hrun.
  destruct (scan_transactions keyString watch (Slot entry)
              (length (Transactions en)) 0 (Transactions en)
              (add_totalTxs (Z.of_nat (length (Transactions en))) st) [])
    as [[st2 log2] r2] eqn:Hscan.
  apply scan_transactions_effect in Hscan
    as (new & m & Hlog & _ & _ & _ & Hreports); [|exact Hrange].
  simpl in Hlog. subst log2.
  assert (Hlog : log = new) by (destruct r2 as [[]|]; congruence).
  subst log. rewrite Forall_forall in Hreports.
  destruct (Hreports rp Hin) as (? & ? & ? & ?).
  repeat apply conj; auto; lia.
Qed.

Lemma processEntry_reports_well_formed_witness :
  let res :=
    processEntry base58 targetAddresses solana.UnmarshalWithDecoder
      zeroStats (mkRaw 7 (headered sample_entry_bytes)) in
  Forall (fun rp => rep_slot rp = 7 /\ rep_tx rp = 1%nat) (snd (fst res)).
Proof.
  intros res. apply Forall_forall. intros rp Hin.
  assert (Hrun : processEntry base58 targetAddresses
                   solana.UnmarshalWithDecoder zeroStats
                   (mkRaw 7 (headered sample_entry_bytes))
                 = (fst (fst res), snd (fst res), snd res))
    by (vm_compute; reflexivity).
  assert (Hrange : int64 (matchedTxs zeroStats))
    by (unfold int64; split; by_evaluation).
  assert (Hparse :
    parseJitoEntry solana.UnmarshalWithDecoder
      (Entries (mkRaw 7 (headered sample_entry_bytes)))
    = inr (mkEntry 5 (zeros 32) [sample_tx])) by (vm_compute; reflexivity).
  destruct (processEntry_reports_well_formed _ _ _ _ _ _ _ _ _ rp
              Hrange Hrun Hparse Hin) as (Hslot & _ & Htx & _).
  split; [exact Hslot|]. cbn [Transactions length] in Htx. lia.
Defined.

(** ** Further properties of the stream loop *)

Lemma add64_one z : 0 <= z -> z + 1 < 2 ^ 63 -> add64 z 1 = z + 1.
Proof. intros H0 H1. unfold add64. apply wrap64_small. unfold int64. lia. Qed.

Lemma count_received_nonneg trace : 0 <= count_received trace.
Proof. induction trace as [|[resp|entry] rest IH]; simpl; lia. Qed.

Lemma count_tasks_nonneg trace : 0 <= count_tasks trace.
Proof. induction trace as [|[resp|entry] rest IH]; simpl; lia. Qed.

Lemma count_failed_setups_nonneg sessions : 0 <= count_failed_setups sessions.
Proof. induction sessions as [|[|trace] rest IH]; simpl; lia. Qed.

(** X11. A task of the pool counts its frame exactly once: as parsed when
    [processEntry] returned no error, as failed when it returned one, as a
    parse error when it panicked; the two other outcome counters, the
    total-entries counter, the reconnect counter and the last slot are
    left alone. *)
Theorem run_task_counts_once
    (keyString : KeyString) (watch : gmap string string)
    (unmarshal : TxDecoder) (st : Stats) (entry : RawEntry) :
  let outcome := snd (processEntry keyString watch unmarshal st entry) in
  let st' := run_task keyString watch unmarshal st entry in
  (parsedEntries st', failedEntries st', parseErrors st')
  = match outcome with
    | Done None =>
        (add64 (parsedEntries st) 1, failedEntries st, parseErrors st)
    | Done (Some _) =>
        (parsedEntries st, add64 (failedEntries st) 1, parseErrors st)
    | Panic =>
        (parsedEntries st, failedEntries st, add64 (parseErrors st) 1)
    end
  /\ totalEntries st' = totalEntries st
  /\ reconnectCount st' = reconnectCount st
  /\ lastSlot st' = lastSlot st.
Proof.
  intros outcome st'. subst outcome st'.
  pose proof (run_task_frame keyString watch unmarshal st entry)
    as [Htotal Hreconnect].
  pose proof (run_task_lastSlot keyString watch unmarshal st entry) as Hslot.
  split; [|auto].
  unfold run_task.
  pose proof (processEntry_frame keyString watch unmarshal st entry) as Hp.
  cbn zeta in Hp.
  destruct (processEntry keyString watch unmarshal st entry)
    as [[st1 log] [[err|]|]]; cbn in *;
    destruct Hp as (_ & -> & -> & -> & _); reflexivity.
Qed.

(** X12. Over any interleaving of received frames and pool tasks, as long
    as no counter overflows, the total-entries counter grows by the number
    of frames received, and the parsed, failed and parse-error counters
    together grow by the number of tasks run. *)
Theorem run_accounting
    (keyString : KeyString) (watch : gmap string string)
    (unmarshal : TxDecoder) (trace : list Action) :
  forall st,
    0 <= totalEntries st ->
    totalEntries st + count_received trace < 2 ^ 63 ->
    0 <= parsedEntries st ->
    0 <= failedEntries st ->
    0 <= parseErrors st ->
    parsedEntries st + failedEntries st + parseErrors st
    + count_tasks trace < 2 ^ 63 ->
    let st' := run keyString watch unmarshal st trace in
    totalEntries st' = totalEntries st + count_received trace /\
    parsedEntries st' + failedEntries st' + parseErrors st'
    = parsedEntries st + failedEntries st + parseErrors st
      + count_tasks trace /\
    0 <= parsedEntries st' /\ 0 <= failedEntries st' /\ 0 <= parseErrors st'.
Proof.
  unfold run.
  induction trace as [|a rest IH]; intros st Ht Htb Hp Hf He Hsum;
    cbn [foldl count_received count_tasks] in *.
  - cbn zeta. repeat apply conj; lia.
  - pose proof (count_received_nonneg rest).
    pose proof (count_tasks_nonneg rest).
    destruct a as [resp|entry]; cbn [step]; cbn zeta.
    + set (st1 := fst (receive st resp)).
      assert (H1 : totalEntries st1 = totalEntries st + 1)
        by (subst st1; cbn; apply add64_one; lia).
      assert (H2 : parsedEntries st1 = parsedEntries st) by reflexivity.
      assert (H3 : failedEntries st1 = failedEntries st) by reflexivity.
      assert (H4 : parseErrors st1 = parseErrors st) by reflexivity.
      destruct (IH st1) as (E1 & E2 & ? & ? & ?);
        solve [lia | cbn zeta in *; repeat apply conj; lia].
    + pose proof (run_task_counts_once keyString watch unmarshal st entry)
        as (Hcounts & Htotal & _).
      cbn zeta in Hcounts, Htotal.
      set (st1 := run_task keyString watch unmarshal st entry) in *.
      assert (Hstep :
        parsedEntries st1 + failedEntries st1 + parseErrors st1
        = parsedEntries st + failedEntries st + parseErrors st + 1 /\
        0 <= parsedEntries st1 /\ 0 <= failedEntries st1 /\
        0 <= parseErrors st1).
      { destruct (snd (processEntry keyString watch unmarshal st entry))
          as [[err|]|]; injection Hcounts as -> -> ->;
          rewrite add64_one by lia; repeat apply conj; lia. }
      destruct Hstep as (Hstep & ? & ? & ?).
      destruct (IH st1) as (E1 & E2 & ? & ? & ?);
        solve [lia | cbn zeta in *; repeat apply conj; lia].
Qed.

Lemma run_accounting_witness :
  let frame := mkRaw 7 (headered sample_entry_bytes) in
  let st :=
    run base58 targetAddresses solana.UnmarshalWithDecoder zeroStats
      [Recv frame; Recv (mkRaw 8 []); RunTask frame; RunTask (mkRaw 8 [])] in
  totalEntries st = 2 /\
  parsedEntries st + failedEntries st + parseErrors st = 2.
Proof.
  intros frame st.
  destruct (run_accounting base58 targetAddresses
              solana.UnmarshalWithDecoder
              [Recv frame; Recv (mkRaw 8 []); RunTask frame;
               RunTask (mkRaw 8 [])] zeroStats)
    as (Htotal & Hsum & _); try by_evaluation.
  fold st in Htotal, Hsum. split; [exact Htotal | exact Hsum].
Defined.

(** X13. With slots that fit an [int64] and a stored slot at least 10
    below its maximum, receiving a frame raises the gap warning exactly
    when a slot was stored before (the counter is positive) and the new
    slot is more than 10 above it.  The first frame of a run never warns,
    and neither does a slot of 2^63 or more, which turns negative in the
    conversion. *)
Theorem slot_gap_warning (st : Stats) (resp : RawEntry) :
  0 <= lastSlot st < 2 ^ 63 - 10 ->
  (0 <= Slot resp < 2 ^ 63 ->
   (snd (receive st resp) = true <->
    0 < lastSlot st /\ lastSlot st + 10 < Slot resp))
  /\
  (2 ^ 63 <= Slot resp < 2 ^ 64 -> snd (receive st resp) = false).
Proof.
  intros Hlast.
  cbn [receive snd add_totalEntries lastSlot]. unfold slot_gap, add64.
  rewrite (wrap64_small (lastSlot st + 10)) by (unfold int64; lia).
  split; intros Hslot.
  - rewrite (wrap64_small (Slot resp)) by (unfold int64; lia).
    rewrite andb_true_iff, !Z.ltb_lt. reflexivity.
  - assert (Hneg : wrap64 (Slot resp) = Slot resp - 2 ^ 64).
    { unfold wrap64.
      replace (Slot resp + 2 ^ 63) with (Slot resp - 2 ^ 63 + 1 * 2 ^ 64)
        by lia.
      rewrite Z_mod_plus_full, Z.mod_small; lia. }
    rewrite Hneg. apply andb_false_iff. right. apply Z.ltb_ge. lia.
Qed.

Lemma slot_gap_warning_witness :
  snd (receive (store_lastSlot 1000 zeroStats) (mkRaw 1015 [])) = true /\
  snd (receive zeroStats (mkRaw 1015 [])) = false /\
  snd (receive (store_lastSlot 1000 zeroStats) (mkRaw (2 ^ 63) [])) = false.
Proof.
  split; [|split].
  - apply (proj1 (slot_gap_warning (store_lastSlot 1000 zeroStats)
                    (mkRaw 1015 []) ltac:(split; by_evaluation)));
      split; by_evaluation.
  - apply not_true_is_false. intros Hwarn.
    apply (proj1 (slot_gap_warning zeroStats (mkRaw 1015 [])
                    ltac:(split; by_evaluation))) in Hwarn
      as [Hpos _]; [|split; by_evaluation].
    apply Z.ltb_lt in Hpos. vm_compute in Hpos. discriminate Hpos.
  - apply (proj2 (slot_gap_warning (store_lastSlot 1000 zeroStats)
                    (mkRaw (2 ^ 63) []) ltac:(split; by_evaluation))).
    split; by_evaluation.
Defined.

(** ** The reconnect loop *)

Lemma run_reconnectCount keyString watch unmarshal trace :
  forall st,
    reconnectCount (run keyString watch unmarshal st trace)
    = reconnectCount st.
Proof.
  unfold run. induction trace as [|a rest IH]; intros st; [reflexivity|].
  cbn [foldl]. rewrite IH. destruct a as [resp|entry]; cbn [step].
  - reflexivity.
  - apply run_task_frame.
Qed.

(** X14. Over any sequence of sessions, as long as it does not overflow,
    the reconnect counter grows by the number of sessions whose set-up
    failed: a session whose stream ran, whatever it received and however
    its tasks ended, is followed by a new session without being counted. *)
Theorem reconnectCount_counts_failed_setups
    (keyString : KeyString) (watch : gmap string string)
    (unmarshal : TxDecoder) (sessions : list Session) :
  forall st,
    0 <= reconnectCount st ->
    reconnectCount st + count_failed_setups sessions < 2 ^ 63 ->
    reconnectCount (main_loop keyString watch unmarshal st sessions)
    = reconnectCount st + count_failed_setups sessions.
Proof.
  unfold main_loop.
  induction sessions as [|s rest IH]; intros st H0 Hb;
    cbn [foldl count_failed_setups] in *; [lia|].
  pose proof (count_failed_setups_nonneg rest).
  destruct s as [|trace]; cbn [main_iteration].
  - rewrite IH; cbn [add_reconnectCount reconnectCount];
      rewrite add64_one by lia; lia.
  - rewrite IH; rewrite run_reconnectCount; lia.
Qed.

Lemma reconnectCount_counts_failed_setups_witness :
  reconnectCount
    (main_loop base58 targetAddresses solana.UnmarshalWithDecoder zeroStats
       [SetupFailed;
        Streamed [Recv (mkRaw 7 (headered sample_entry_bytes));
                  RunTask (mkRaw 7 (headered sample_entry_bytes))];
        SetupFailed])
  = 2.
Proof.
  rewrite reconnectCount_counts_failed_setups by by_evaluation.
  vm_compute. reflexivity.
Defined.

(** ** Further properties of the address matcher *)

Section MatcherFacts.

Variable keyString : KeyString.
Variable watch : gmap string string.
Variable tx : solana.Transaction.

Lemma note_address_fold_panic (keys : list solana.PublicKey) :
  foldl (note_address keyString watch tx) Panic keys = Panic.
Proof. induction keys as [|key rest IH]; [reflexivity | exact IH]. Qed.

(** Without a signature, the loop panics at the first watched key. *)
Lemma note_address_fold_unsigned (keys : list solana.PublicKey) :
  forall acc : gmap string string,
    solana.Signatures tx = [] ->
    Exists (fun key => is_Some (watch !! keyString key)) keys ->
    foldl (note_address keyString watch tx) (Done acc) keys = Panic.
Proof.
  induction keys as [|key rest IH]; intros acc Hsig Hex.
  - inversion Hex.
  - cbn [foldl note_address].
    destruct (watch !! keyString key) as [desc|] eqn:Hw.
    + rewrite Hsig. apply note_address_fold_panic.
    + apply IH; [assumption|].
      inversion Hex as [? ? [v Hv]|]; subst; [congruence | assumption].
Qed.

(** Whatever the loop returns is drawn from the watch-list, one entry at
    most per key visited. *)
Lemma note_address_fold_bounded (keys : list solana.PublicKey) :
  forall (acc found : gmap string string),
    acc ⊆ watch ->
    foldl (note_address keyString watch tx) (Done acc) keys = Done found ->
    found ⊆ watch /\ (size found <= size acc + length keys)%nat.
Proof.
  induction keys as [|key rest IH]; intros acc found Hsub Hfold.
  - cbn in Hfold. injection Hfold as <-. split; [assumption | simpl; lia].
  - cbn [foldl note_address] in Hfold.
    destruct (watch !! keyString key) as [desc|] eqn:Hw.
    + destruct (solana.Signatures tx) as [|sig sigs].
      { rewrite note_address_fold_panic in Hfold. discriminate. }
      apply IH in Hfold as [Hfound Hsize].
      * split; [assumption|].
        pose proof (map_size_insert (keyString key) desc acc) as Hins.
        destruct (acc !! keyString key); simpl in *; lia.
      * now apply insert_subseteq_l.
    + apply IH in Hfold as [Hfound Hsize]; [|assumption].
      split; [assumption | simpl; lia].
Qed.

End MatcherFacts.

(** X15. [containsAddresses] panics exactly when the transaction carries
    no signature and some account key of the message is on the
    watch-list: the hit makes it print [tx.Signatures[0]]. *)
Theorem containsAddresses_panics_iff
    (keyString : KeyString) (watch : gmap string string)
    (message : solana.Message) (tx : solana.Transaction) :
  containsAddresses keyString watch message tx = Panic <->
  solana.Signatures tx = [] /\
  Exists (fun key => is_Some (watch !! keyString key))
    (solana.AccountKeys message).
Proof.
  unfold containsAddresses. split.
  - intros Hpanic.
    destruct (solana.Signatures tx) as [|sig sigs] eqn:Hsig.
    + split; [reflexivity|].
      destruct (decide (Exists (fun key => is_Some (watch !! keyString key))
                          (solana.AccountKeys message))) as [Hex|Hnone];
        [assumption|].
      rewrite note_address_fold_unwatched in Hpanic; [discriminate|].
      intros key Hin. apply eq_None_not_Some. intros Hsome.
      apply Hnone, Exists_exists. eauto.
    + destruct (note_address_fold keyString watch tx
                  (solana.AccountKeys message) ∅) as (found & Hf & _);
        congruence.
  - intros [Hsig Hex]. now apply note_address_fold_unsigned.
Qed.

Lemma containsAddresses_panics_iff_witness :
  let message :=
    solana.mkMessage [zeros 32; pump_key] (solana.mkHeader 1 0 1)
      (zeros 32) [] in
  containsAddresses base58 targetAddresses message
    (solana.mkTransaction [] message) = Panic.
Proof.
  intros message.
  apply (proj2 (containsAddresses_panics_iff base58 targetAddresses message
                  (solana.mkTransaction [] message))).
  split; [reflexivity|].
  apply Exists_cons_tl, Exists_cons_hd. vm_compute. eauto.
Defined.

(** X16. A map returned by [containsAddresses] is a part of the
    watch-list, label for label, with at most one entry per account key
    of the message. *)
Theorem containsAddresses_within_watchlist
    (keyString : KeyString) (watch : gmap string string)
    (message : solana.Message) (tx : solana.Transaction)
    (found : gmap string string) :
  containsAddresses keyString watch message tx = Done found ->
  found ⊆ watch /\
  (size found <= length (solana.AccountKeys message))%nat /\
  (size found <= size watch)%nat.
Proof.
  unfold containsAddresses. intros Hfound.
  apply note_address_fold_bounded in Hfound as [Hsub Hsize];
    [|apply map_empty_subseteq].
  rewrite map_size_empty in Hsize.
  split; [assumption|]. split; [lia|]. now apply map_subseteq_size.
Qed.

Lemma containsAddresses_within_watchlist_witness :
  let message :=
    solana.mkMessage [pump_key; zeros 32; pump_key] (solana.mkHeader 1 0 1)
      (zeros 32) [] in
  exists found : gmap string string,
    containsAddresses base58 targetAddresses message
      (solana.mkTransaction [zeros 64] message) = Done found /\
    (size found <= size targetAddresses)%nat.
Proof.
  intros message.
  destruct (containsAddresses base58 targetAddresses message
              (solana.mkTransaction [zeros 64] message))
    as [found|] eqn:Hfound.
  - exists found. split; [reflexivity|].
    apply (containsAddresses_within_watchlist _ _ _ _ _ Hfound).
  - exfalso.
    apply (proj1 (containsAddresses_panics_iff _ _ _ _)) in Hfound
      as [Hsig _].
    discriminate Hsig.
Defined.

(** ** Further properties of the transaction details *)

(** X17. The account table has one row per account key, row [i] carrying
    index [i]; the fee payer mark is on row 0 alone; signers come first;
    and among the signers, as among the non-signers, the writable rows
    come first. *)
Theorem account_table_layout (tx : solana.Transaction) :
  length (account_table tx)
  = length (solana.AccountKeys (solana.TxMessage tx))
  /\
  (forall i r,
      account_table tx !! i = Some r ->
      row_index r = i /\ (isPayer r = true <-> i = 0%nat))
  /\
  (forall i j ri rj,
      (i <= j)%nat ->
      account_table tx !! i = Some ri ->
      account_table tx !! j = Some rj ->
      (isSigner rj = true -> isSigner ri = true) /\
      (isSigner ri = isSigner rj ->
       isWritable rj = true -> isWritable ri = true)).
Proof.
  unfold account_table. split; [apply length_imap|]. split.
  - intros i r Hr. apply list_lookup_imap_Some in Hr as (key & _ & ->).
    unfold account_row.
    destruct (Z.of_nat i <? _); cbn [row_index isPayer];
      (split; [reflexivity | apply Nat.eqb_eq]).
  - intros i j ri rj Hij Hi Hj.
    apply list_lookup_imap_Some in Hi as (ki & _ & ->).
    apply list_lookup_imap_Some in Hj as (kj & _ & ->).
    unfold account_row.
    destruct (Z.ltb_spec (Z.of_nat i)
                (solana.NumRequiredSignatures
                   (solana.Header (solana.TxMessage tx))));
      destruct (Z.ltb_spec (Z.of_nat j)
                  (solana.NumRequiredSignatures
                     (solana.Header (solana.TxMessage tx))));
      cbn [isSigner isWritable];
      (split; [try reflexivity; try discriminate; try lia|]);
      try discriminate;
      intros _ Hw; apply Z.ltb_lt in Hw; apply Z.ltb_lt; lia.
Qed.

Lemma account_table_layout_witness :
  exists r,
    account_table five_key_tx !! 3%nat = Some r /\
    row_index r = 3%nat /\ isPayer r <> true.
Proof.
  assert (Hr : account_table five_key_tx !! 3%nat
               = Some (account_row five_key_tx 3 (zeros 32)))
    by reflexivity.
  destruct (proj1 (proj2 (account_table_layout five_key_tx)) 3%nat _ Hr)
    as [Hindex Hpayer].
  eexists. split; [exact Hr|]. split; [exact Hindex|].
  intros Hp. apply Hpayer in Hp. discriminate Hp.
Defined.

Lemma program_ids_panics_iff keys instrs :
  program_ids keys instrs = Panic <->
  Exists (bad_program_index keys) instrs.
Proof.
  unfold bad_program_index.
  induction instrs as [|inst rest IH]; simpl.
  - split; [discriminate | intros H; inversion H].
  - destruct (keys !! Z.to_nat (solana.ProgramIDIndex inst)) as [pid|] eqn:Hk.
    + assert (Hlt : (Z.to_nat (solana.ProgramIDIndex inst) < length keys)%nat)
        by (apply lookup_lt_is_Some; eauto).
      destruct (program_ids keys rest) as [ids|].
      * split; [discriminate|]. intros Hex.
        inversion Hex; subst; [lia|]. apply IH in H0. discriminate.
      * split; [intros _; apply Exists_cons_tl; now apply IH | reflexivity].
    + apply lookup_ge_None in Hk.
      split; [intros _; now apply Exists_cons_hd | reflexivity].
Qed.

Lemma program_ids_length keys instrs ids :
  program_ids keys instrs = Done ids -> length ids = length instrs.
Proof.
  revert ids. induction instrs as [|inst rest IH]; intros ids Hids;
    simpl in Hids.
  - now injection Hids as <-.
  - destruct (keys !! Z.to_nat (solana.ProgramIDIndex inst)); [|discriminate].
    destruct (program_ids keys rest) as [ids'|]; [|discriminate].
    injection Hids as <-. simpl. f_equal. now apply IH.
Qed.

(** X18. [printTransactionDetails] panics exactly when the transaction
    has no signature or one of its instructions names a program index
    that the account keys do not have.  Otherwise it prints the first
    signature, one row per account key and one program per instruction. *)
Theorem printTransactionDetails_panics_iff (tx : solana.Transaction) :
  let msg := solana.TxMessage tx in
  (printTransactionDetails tx = Panic <->
   solana.Signatures tx = [] \/
   Exists (bad_program_index (solana.AccountKeys msg))
     (solana.Instructions msg))
  /\
  (forall details,
      printTransactionDetails tx = Done details ->
      head (solana.Signatures tx) = Some (det_signature details) /\
      length (det_accounts details) = length (solana.AccountKeys msg) /\
      length (det_programs details) = length (solana.Instructions msg)).
Proof.
  intros msg. unfold printTransactionDetails. fold msg.
  pose proof (program_ids_panics_iff (solana.AccountKeys msg)
                (solana.Instructions msg)) as Hpanic.
  destruct (solana.Signatures tx) as [|sig sigs].
  { split; [split; auto|]. discriminate. }
  destruct (program_ids (solana.AccountKeys msg) (solana.Instructions msg))
    as [ids|] eqn:Hids.
  - split.
    + split; [discriminate|]. intros [Hnil|Hbad]; [discriminate|].
      apply Hpanic in Hbad. discriminate.
    + intros details Hd. injection Hd as <-.
      cbn [det_signature det_accounts det_programs head].
      split; [reflexivity|]. split.
      * unfold account_table. apply length_imap.
      * eapply program_ids_length, Hids.
  - split; [|discriminate].
    split; [|reflexivity]. intros _. right. now apply Hpanic.
Qed.

Lemma printTransactionDetails_panics_iff_witness :
  printTransactionDetails
    (solana.mkTransaction [zeros 64]
       (solana.mkMessage [pump_key] (solana.mkHeader 1 0 0) (zeros 32)
          [solana.mkInstruction 1 [] []]))
  = Panic.
Proof.
  apply (proj1 (printTransactionDetails_panics_iff _)).
  right. apply Exists_cons_hd. unfold bad_program_index. by_evaluation.
Defined.

(** ** Instruction data *)

Lemma byte_val_byte_of z : byte_val (byte_of z) = z mod 256.
Proof.
  unfold byte_val, byte_of.
  pose proof (Z.mod_pos_bound z 256 ltac:(lia)) as Hm.
  destruct (Byte.of_N (Z.to_N (z mod 256))) as [b|] eqn:Hb.
  - apply Byte.to_of_N in Hb. rewrite Hb. lia.
  - apply Byte.of_N_None_iff in Hb. lia.
Qed.

Lemma length_le_bytes n : forall z, length (le_bytes n z) = n.
Proof. induction n as [|n IH]; intros z; simpl; [|rewrite IH]; reflexivity. Qed.

(** Reading back the [n] low bytes of a number gives the number modulo
    [256 ^ n]. *)
Lemma le_uint_le_bytes n :
  forall z, le_uint (le_bytes n z) = z mod 256 ^ Z.of_nat n.
Proof.
  induction n as [|n IH]; intros z.
  - simpl. now rewrite Z.mod_1_r.
  - cbn [le_bytes le_uint]. rewrite byte_val_byte_of, IH.
    rewrite Nat2Z.inj_succ, Z.pow_succ_r by lia.
    rewrite (Z.rem_mul_r z 256 (256 ^ Z.of_nat n)) by lia. lia.
Qed.

Lemma systemInstructions_transfer :
  systemInstructions !! 3 = Some "转账 SOL"%string.
Proof. vm_compute. reflexivity. Qed.

Lemma tokenInstructions_transfer :
  tokenInstructions !! 4 = Some "转移代币"%string.
Proof. vm_compute. reflexivity. Qed.

(** X19. For the system program, instruction data made of the 4-byte
    little-endian type 3, an 8-byte little-endian amount and anything
    after it prints the transfer line and that amount in lamports. *)
Theorem system_transfer_amount (amount : Z) (rest : list byte) :
  0 <= amount < 2 ^ 64 ->
  decodeInstructionData systemProgramID
    (le_bytes 4 3 ++ le_bytes 8 amount ++ rest)
  = [SystemInstruction "转账 SOL"; TransferLamports amount].
Proof.
  intros Hamount. unfold decodeInstructionData.
  rewrite String.eqb_refl.
  assert (Hlen : length (le_bytes 4 3 ++ le_bytes 8 amount ++ rest)
                 = (12 + length rest)%nat)
    by (rewrite !length_app, !length_le_bytes; lia).
  rewrite Hlen.
  destruct (Nat.ltb_spec 4 (12 + length rest)); [|lia].
  destruct (Nat.leb_spec 12 (12 + length rest)); [|lia].
  rewrite (take_app_length' (le_bytes 4 3)) by reflexivity.
  rewrite (drop_app_length' (le_bytes 4 3)) by reflexivity.
  rewrite (take_app_length' (le_bytes 8 amount))
    by (now rewrite length_le_bytes).
  change (le_uint (le_bytes 4 3)) with 3.
  rewrite systemInstructions_transfer. cbn [andb Z.eqb Pos.eqb].
  rewrite le_uint_le_bytes.
  change (256 ^ Z.of_nat 8) with (2 ^ 64). rewrite Z.mod_small by lia.
  reflexivity.
Qed.

Lemma system_transfer_amount_witness :
  decodeInstructionData systemProgramID
    (le_bytes 4 3 ++ le_bytes 8 1000000000 ++ [xff])
  = [SystemInstruction "转账 SOL"; TransferLamports 1000000000].
Proof. apply system_transfer_amount. split; by_evaluation. Defined.

(** X20. For the token program, instruction data made of the type byte 4,
    an 8-byte little-endian amount and anything after it prints the
    transfer line and that amount in token units. *)
Theorem token_transfer_amount (amount : Z) (rest : list byte) :
  0 <= amount < 2 ^ 64 ->
  decodeInstructionData tokenProgramID
    (le_bytes 1 4 ++ le_bytes 8 amount ++ rest)
  = [TokenInstruction "转移代币"; TokenUnits amount].
Proof.
  intros Hamount. unfold decodeInstructionData.
  change (String.eqb tokenProgramID systemProgramID) with false.
  rewrite String.eqb_refl. cbn [andb app].
  assert (Hlen : length (le_bytes 1 4 ++ le_bytes 8 amount ++ rest)
                 = (9 + length rest)%nat)
    by (rewrite !length_app, !length_le_bytes; lia).
  rewrite Hlen.
  destruct (Nat.ltb_spec 0 (9 + length rest)); [|lia].
  destruct (Nat.leb_spec 9 (9 + length rest)); [|lia].
  rewrite (take_app_length' (le_bytes 1 4)) by reflexivity.
  rewrite (drop_app_length' (le_bytes 1 4)) by reflexivity.
  rewrite (take_app_length' (le_bytes 8 amount))
    by (now rewrite length_le_bytes).
  change (le_uint (le_bytes 1 4)) with 4.
  rewrite tokenInstructions_transfer. cbn [andb Z.eqb Pos.eqb].
  rewrite le_uint_le_bytes.
  change (256 ^ Z.of_nat 8) with (2 ^ 64). rewrite Z.mod_small by lia.
  reflexivity.
Qed.

Lemma token_transfer_amount_witness :
  decodeInstructionData tokenProgramID (le_bytes 1 4 ++ le_bytes 8 250 ++ [])
  = [TokenInstruction "转移代币"; TokenUnits 250].
Proof. apply token_transfer_amount. split; by_evaluation. Defined.

(** X21. [decodeInstructionData] prints nothing for a program that is
    neither the system nor the token program, nothing for empty data, and
    nothing for the system program when the data has 4 bytes or fewer,
    the 4 bytes of an instruction type alone included; it never prints
    more than two lines. *)
Theorem decodeInstructionData_silent (programID : string) (blob : list byte) :
  (programID <> systemProgramID -> programID <> tokenProgramID ->
   decodeInstructionData programID blob = [])
  /\
  (blob = [] -> decodeInstructionData programID blob = [])
  /\
  ((length blob <= 4)%nat ->
   decodeInstructionData systemProgramID blob = [])
  /\
  (length (decodeInstructionData programID blob) <= 2)%nat.
Proof.
  unfold decodeInstructionData. repeat apply conj.
  - intros Hs Ht.
    apply String.eqb_neq in Hs. apply String.eqb_neq in Ht.
    now rewrite Hs, Ht.
  - intros ->. cbn [length Nat.ltb Nat.leb]. now rewrite !andb_false_r.
  - intros Hlen. rewrite String.eqb_refl.
    change (String.eqb systemProgramID tokenProgramID) with false.
    destruct (Nat.ltb_spec 4 (length blob)); [lia | reflexivity].
  - destruct (String.eqb_spec programID systemProgramID) as [->|Hs].
    + change (String.eqb systemProgramID tokenProgramID) with false.
      cbn [andb]. rewrite app_nil_r.
      destruct (4 <? length blob)%nat; [|simpl; lia].
      destruct (systemInstructions !! _); [|simpl; lia].
      destruct (_ && _); simpl; lia.
    + cbn [andb app].
      destruct (String.eqb programID tokenProgramID && _); [|simpl; lia].
      destruct (tokenInstructions !! _); [|simpl; lia].
      destruct (_ && _); simpl; lia.
Qed.

Lemma decodeInstructionData_silent_witness :
  decodeInstructionData "ComputeBudget111111111111111111111111111111"
    (le_bytes 4 3 ++ le_bytes 8 5)
  = []
  /\ decodeInstructionData systemProgramID (le_bytes 4 3) = [].
Proof.
  split.
  - apply (proj1 (decodeInstructionData_silent _ _)); discriminate.
  - apply (proj1 (proj2 (proj2 (decodeInstructionData_silent
                                  systemProgramID (le_bytes 4 3))))).
    by_evaluation.
Defined.
